(** * LinkQ over Neo4j: query-building workflow, Cypher executor and
      Cypher pattern extractor

    A shallow embedding of
    - [utils/queryBuildingWorkflow] (the dialogue loop and its three search
      handlers),
    - [utils/neo4j/runCypherQuery] ([runCypherQuery], [formatCypherResult],
      [convertToSparqlResultsFormat]),
    - [utils/neo4j/neo4jConnection] (the part [runCypherQuery] relies on),
    - [utils/neo4j/parseCypherQuery] ([parseCypherQuery]),
    followed by the properties proved about them.

    Conventions of the embedding.
    - A JavaScript string is a [string]: a sequence of code units below 256.
      White space is the set recognised by [String.prototype.trim] and by
      the regular-expression class [\s] restricted to those code units.
      [toUpperCase] is the mapping of the ASCII letters: the source only
      compares its result with [STOP], and no other code unit below 256
      has an ASCII letter as its upper case.
      Where the outcome depends on code units above 255, in
      [encodeURIComponent], a string is the list of its code units of 16
      bits.
    - A JavaScript value is a finite tree ([JsValue]); numbers are the
      safe integers.
    - [async] functions are functions in a state-and-exception monad over a
      [World] that records the [neo4jConnection] singleton and the messages
      and queries handed to the two external collaborators; a rejected
      promise is a thrown value. *)

From Stdlib Require Import ZArith Strings.String Strings.Ascii Numbers.DecimalString.
From Stdlib Require Numbers.HexadecimalString.
From stdpp Require Import gmap strings list fin_maps.

(** ** JavaScript strings *)

Module JsString.

(** Code units matched by [\s] and stripped by [trim()]:
    TAB, LF, VT, FF, CR, SPACE and NBSP. *)
Definition isWhiteSpace (c : ascii) : bool :=
  match nat_of_ascii c with
  | 9 | 10 | 11 | 12 | 13 | 32 | 160 => true
  | _ => false
  end.

(** Line terminators below 256; [.] in a regular expression matches
    every code unit but these. *)
Definition isLineTerminator (c : ascii) : bool :=
  match nat_of_ascii c with
  | 10 | 13 => true
  | _ => false
  end.

Definition isEmpty (s : string) : bool :=
  match s with
  | EmptyString => true
  | String _ _ => false
  end.

Fixpoint trimStart (s : string) : string :=
  match s with
  | String c s' => if isWhiteSpace c then trimStart s' else s
  | EmptyString => EmptyString
  end.

Fixpoint trimEnd (s : string) : string :=
  match s with
  | String c s' =>
      let t := trimEnd s' in
      if isWhiteSpace c && isEmpty t then EmptyString else String c t
  | EmptyString => EmptyString
  end.

(** [s.trim()] *)
Definition trim (s : string) : string := trimEnd (trimStart s).

Definition upperChar (c : ascii) : ascii :=
  let n := nat_of_ascii c in
  if (97 <=? n)%nat && (n <=? 122)%nat then ascii_of_nat (n - 32) else c.

(** [s.toUpperCase()] *)
Fixpoint toUpperCase (s : string) : string :=
  match s with
  | String c s' => String (upperChar c) (toUpperCase s')
  | EmptyString => EmptyString
  end.

(** [s.startsWith(p)] *)
Definition startsWith (s p : string) : bool := String.prefix p s.

Fixpoint drop (n : nat) (s : string) : string :=
  match n, s with
  | S n', String _ s' => drop n' s'
  | _, _ => s
  end.

Fixpoint take (n : nat) (s : string) : string :=
  match n, s with
  | S n', String c s' => String c (take n' s')
  | _, _ => EmptyString
  end.

(** [s.indexOf(sep)] for a non-empty [sep]; [None] stands for -1. *)
Fixpoint indexOf (s sep : string) : option nat :=
  if String.prefix sep s then Some 0
  else match s with
       | String _ s' => S <$> indexOf s' sep
       | EmptyString => None
       end.

(** [s.includes(sep)] *)
Definition includes (s sep : string) : bool :=
  match indexOf s sep with Some _ => true | None => false end.

(** The text before and the text after the first occurrence of [sep]. *)
Definition breakAt (s sep : string) : option (string * string) :=
  match indexOf s sep with
  | Some i => Some (take i s, drop (i + String.length sep) s)
  | None => None
  end.

(** [s.split(sep)] for a non-empty string separator: the pieces between
    the successive, non-overlapping occurrences of [sep], found from the
    left. Every occurrence consumes at least one code unit, so
    [String.length s] rounds are enough ([split_rounds_enough]). *)
Fixpoint splitRounds (rounds : nat) (s sep : string) : list string :=
  match rounds with
  | O => [s]
  | S rounds' =>
      match breakAt s sep with
      | Some (piece, rest) => piece :: splitRounds rounds' rest sep
      | None => [s]
      end
  end.

Definition split (s sep : string) : list string :=
  splitRounds (String.length s) s sep.

(** [s.replace(pat, repl)] with a string pattern and a replacement free
    of [$]: only the first occurrence is replaced. *)
Definition replace (s pat repl : string) : string :=
  match breakAt s pat with
  | Some (before, after) => before +:+ repl +:+ after
  | None => s
  end.

(** [pieces.join(sep)] *)
Fixpoint join (pieces : list string) (sep : string) : string :=
  match pieces with
  | [] => EmptyString
  | [p] => p
  | p :: ps => p +:+ sep +:+ join ps sep
  end.

(** The one-character string made of the double quote. *)
Definition dq : string := String (ascii_of_nat 34) EmptyString.

(** The one-character string made of the line feed. *)
Definition nl : string := String (ascii_of_nat 10) EmptyString.

End JsString.

(** ** Regular expressions

    The fragment of the JavaScript regular expressions that the source
    uses: literals, classes, sequence, alternation, the greedy [?] on a
    group, the greedy [*] and [+] on a class, numbered capturing groups and
    the two anchors. Matching is the backtracking search of the language:
    the first alternative, the longest repetition and the present option
    are tried first, and the rest of the pattern is the continuation. *)

Module Regex.
Import JsString.

Inductive regex : Type :=
| Eps
| Chr (c : ascii)
| Cls (p : ascii -> bool)
| Seq (r1 r2 : regex)
| Alt (r1 r2 : regex)
| Opt (r : regex)
| Star (p : ascii -> bool)
| Plus (p : ascii -> bool)
| Grp (n : nat) (r : regex)
| Bol
| Eol.

Definition seqs (rs : list regex) : regex := foldr Seq Eps rs.

Fixpoint lit (s : string) : regex :=
  match s with
  | String c s' => Seq (Chr c) (lit s')
  | EmptyString => Eps
  end.

(** The captures of a match: group number to matched text; a group that
    did not take part is absent ([undefined]). *)
Abbreviation captures := (gmap nat string).

(** [i] is the index of the next code unit, [s] the input from there. *)
Fixpoint star {R : Type} (p : ascii -> bool) (i : nat) (s : string)
    (caps : captures) (k : nat -> string -> captures -> option R) : option R :=
  match s with
  | String c s' =>
      if p c then
        match star p (S i) s' caps k with
        | Some x => Some x
        | None => k i s caps
        end
      else k i s caps
  | EmptyString => k i s caps
  end.

Fixpoint rmatch {R : Type} (r : regex) (i : nat) (s : string)
    (caps : captures) (k : nat -> string -> captures -> option R) : option R :=
  match r with
  | Eps => k i s caps
  | Chr c =>
      match s with
      | String c' s' => if Ascii.eqb c c' then k (S i) s' caps else None
      | EmptyString => None
      end
  | Cls p =>
      match s with
      | String c' s' => if p c' then k (S i) s' caps else None
      | EmptyString => None
      end
  | Seq r1 r2 =>
      rmatch r1 i s caps (fun i' s' caps' => rmatch r2 i' s' caps' k)
  | Alt r1 r2 =>
      match rmatch r1 i s caps k with
      | Some x => Some x
      | None => rmatch r2 i s caps k
      end
  | Opt r1 =>
      match rmatch r1 i s caps k with
      | Some x => Some x
      | None => k i s caps
      end
  | Star p => star p i s caps k
  | Plus p =>
      match s with
      | String c' s' => if p c' then star p (S i) s' caps k else None
      | EmptyString => None
      end
  | Grp n r1 =>
      rmatch r1 i s caps
        (fun i' s' caps' => k i' s' (<[n := take (i' - i) s]> caps'))
  | Bol => if (i =? 0)%nat then k i s caps else None
  | Eol => if isEmpty s then k i s caps else None
  end.

(** A match found at index [i]: the index after it and its captures. *)
Definition matchAt (r : regex) (i : nat) (s : string) : option (nat * captures) :=
  rmatch r i s ∅ (fun i' _ caps => Some (i', caps)).

(** All the matches of a global regular expression, as the loop
    [while ((match = re.exec(str)) !== null)] sees them: the leftmost
    match from [lastIndex] on, then [lastIndex] moves to its end.
    [skip] counts the code units still covered by the last match. The
    patterns of the source never match the empty string
    ([matchAt_progress], [patterns_consume]), so [lastIndex] always moves
    and no match is looked for at the end of the input. *)
Fixpoint execAllFrom (r : regex) (i : nat) (s : string) (skip : nat)
    : list captures :=
  match s with
  | EmptyString => []
  | String _ s' =>
      match skip with
      | S skip' => execAllFrom r (S i) s' skip'
      | O =>
          match matchAt r i s with
          | Some (j, caps) => caps :: execAllFrom r (S i) s' (j - i - 1)
          | None => execAllFrom r (S i) s' 0
          end
      end
  end.

Definition execAll (r : regex) (s : string) : list captures :=
  execAllFrom r 0 s 0.

(** [s.replace(re, repl)] for a global [re] and a constant [repl]. *)
Fixpoint replaceAllFrom (r : regex) (repl : string) (i : nat) (s : string)
    (skip : nat) : string :=
  match s with
  | EmptyString => EmptyString
  | String c s' =>
      match skip with
      | S skip' => replaceAllFrom r repl (S i) s' skip'
      | O =>
          match matchAt r i s with
          | Some (j, _) => repl +:+ replaceAllFrom r repl (S i) s' (j - i - 1)
          | None => String c (replaceAllFrom r repl (S i) s' 0)
          end
      end
  end.

Definition replaceAll (r : regex) (repl : string) (s : string) : string :=
  replaceAllFrom r repl 0 s 0.

(** [s.replace(re, '$n')] for a [re] without the global flag: the first
    match is replaced by its group [n]. *)
Fixpoint replaceFirstFrom (r : regex) (n : nat) (i : nat) (s : string) : string :=
  match matchAt r i s with
  | Some (j, caps) => default "" (caps !! n) +:+ drop (j - i) s
  | None =>
      match s with
      | String c s' => String c (replaceFirstFrom r n (S i) s')
      | EmptyString => EmptyString
      end
  end.

Definition replaceFirst (r : regex) (n : nat) (s : string) : string :=
  replaceFirstFrom r n 0 s.

(** [match[n] || ''] *)
Definition group (caps : captures) (n : nat) : string := default "" (caps !! n).

(** The classes of the source. *)
Definition inRange (lo hi : nat) (c : ascii) : bool :=
  let n := nat_of_ascii c in (lo <=? n)%nat && (n <=? hi)%nat.

(** [[a-zA-Z0-9_]] *)
Definition word (c : ascii) : bool :=
  inRange 97 122 c || inRange 65 90 c || inRange 48 57 c || Ascii.eqb c "_".

(** [[a-zA-Z0-9_:]] *)
Definition wordOrColon (c : ascii) : bool := word c || Ascii.eqb c ":".

(** [[^}]] *)
Definition notRBrace (c : ascii) : bool := negb (Ascii.eqb c "}").

(** [.] *)
Definition dot (c : ascii) : bool := negb (isLineTerminator c).

(** The class of the double and the single quote. *)
Definition quote (c : ascii) : bool :=
  (nat_of_ascii c =? 34)%nat || (nat_of_ascii c =? 39)%nat.

End Regex.

(** ** [utils/neo4j/parseCypherQuery] *)

Module ParseCypherQuery.
Import JsString Regex.

(** [Record<string, any>] as filled by the property scan: every value
    stored is a string. *)
Abbreviation Properties := (gmap string string).

(** [Neo4jNode] *)
Record Neo4jNode : Type := {
  node_variable : string;
  node_labels : list string;
  node_properties : option Properties
}.

(** [Neo4jRelationship] *)
Record Neo4jRelationship : Type := {
  rel_variable : option string;
  rel_type : string;
  rel_source : string;
  rel_target : string;
  rel_properties : option Properties
}.

(** The result [{ nodes, relationships }]. *)
Record GraphPattern : Type := {
  nodes : list Neo4jNode;
  relationships : list Neo4jRelationship
}.

(** [/\s+/g] *)
Definition whitespaceRun : regex := Plus isWhiteSpace.

(** [/\/\/.*/g] *)
Definition lineComment : regex := seqs [Chr "/"; Chr "/"; Star dot].

(** [query.replace(/\s+/g, ' ').replace(/\/\/.*/g, '').trim()] *)
Definition normalizeQuery (query : string) : string :=
  trim (replaceAll lineComment EmptyString (replaceAll whitespaceRun " " query)).

(** The source patterns are quoted below with a blank between a star and
    a closing parenthesis, which the source does not have.

    [/\(([a-zA-Z0-9_]+)(?::([a-zA-Z0-9_:]+))?(?:\s*\{([^}]* )\})?\)/g] *)
Definition nodePattern : regex :=
  seqs [ Chr "(";
         Grp 1 (Plus word);
         Opt (seqs [Chr ":"; Grp 2 (Plus wordOrColon)]);
         Opt (seqs [Star isWhiteSpace; Chr "{"; Grp 3 (Star notRBrace); Chr "}"]);
         Chr ")" ].

(** [/\(([a-zA-Z0-9_]+)\)(?:-\[(?:([a-zA-Z0-9_]+))?(?::([a-zA-Z0-9_]+))?(?:\s*\{([^}]* )\})?\]->|\-\-\>|\-\-|\-\>|\-)\(([a-zA-Z0-9_]+)\)/g] *)
Definition relPattern : regex :=
  seqs [ Chr "("; Grp 1 (Plus word); Chr ")";
         Alt (seqs [ Chr "-"; Chr "[";
                     Opt (Grp 2 (Plus word));
                     Opt (seqs [Chr ":"; Grp 3 (Plus word)]);
                     Opt (seqs [Star isWhiteSpace; Chr "{"; Grp 4 (Star notRBrace); Chr "}"]);
                     Chr "]"; Chr "-"; Chr ">" ])
        (Alt (lit "-->")
        (Alt (lit "--")
        (Alt (lit "->")
             (lit "-"))));
         Chr "("; Grp 5 (Plus word); Chr ")" ].

(** [/^Q(.* )Q$/] where [Q] is the class of the two quote characters. *)
Definition quoted : regex :=
  seqs [Bol; Cls quote; Grp 1 (Star dot); Cls quote; Eol].

(** [properties[key] = v] on a plain object: the accessor [__proto__]
    ignores a string, every other key becomes an own property. *)
Definition setProperty (key v : string) (properties : Properties) : Properties :=
  if String.eqb key "__proto__" then properties else <[key := v]> properties.

(** The body of [propPairs.forEach(pair => ...)]. *)
Definition addPair (properties : Properties) (pair : string) : Properties :=
  match trim <$> split pair ":" with
  | key :: value :: _ =>
      if negb (isEmpty key) && negb (isEmpty value)
      then setProperty key (replaceFirst quoted 1 value) properties
      else properties
  | _ => properties
  end.

(** The simple properties parsing, shared by the two scans. *)
Definition parseProperties (propertiesPart : string) : Properties :=
  if isEmpty propertiesPart then ∅
  else foldl addPair ∅ (split propertiesPart ",").

(** [Object.keys(properties).length > 0 ? properties : undefined] *)
Definition orUndefined (properties : Properties) : option Properties :=
  if decide (properties = ∅) then None else Some properties.

(** The state of the two loops: the array [nodes], the array
    [relationships] and the [Map] [nodeMap]. *)
Record ParseState : Type := {
  st_nodes : list Neo4jNode;
  st_relationships : list Neo4jRelationship;
  st_nodeMap : gmap string Neo4jNode
}.

Definition initialState : ParseState :=
  {| st_nodes := []; st_relationships := []; st_nodeMap := ∅ |}.

(** [nodes.push(node); nodeMap.set(variable, node)] *)
Definition registerNode (node : Neo4jNode) (st : ParseState) : ParseState :=
  {| st_nodes := st_nodes st ++ [node];
     st_relationships := st_relationships st;
     st_nodeMap := <[node_variable node := node]> (st_nodeMap st) |}.

(** [nodeMap.has(variable)] *)
Definition hasNode (st : ParseState) (variable : string) : bool :=
  bool_decide (is_Some (st_nodeMap st !! variable)).

(** The body of the first [while] loop, for one match of [nodePattern]. *)
Definition nodeStep (st : ParseState) (m : captures) : ParseState :=
  let variable := group m 1 in
  let labelsPart := group m 2 in
  let propertiesPart := group m 3 in
  if hasNode st variable then st
  else
    let labels :=
      if isEmpty labelsPart then []
      else filter (fun l => negb (isEmpty l) = true) (split labelsPart ":") in
    let properties := parseProperties propertiesPart in
    registerNode {| node_variable := variable;
                    node_labels := labels;
                    node_properties := orUndefined properties |} st.

(** [if (!nodeMap.has(v)) { const node = { variable: v, labels: [] }; ... }] *)
Definition ensureNode (v : string) (st : ParseState) : ParseState :=
  if hasNode st v then st
  else registerNode {| node_variable := v; node_labels := [];
                       node_properties := None |} st.

(** The body of the second [while] loop, for one match of [relPattern]. *)
Definition relStep (st : ParseState) (m : captures) : ParseState :=
  let sourceVar := group m 1 in
  let relVar := if isEmpty (group m 2) then None else Some (group m 2) in
  let relType := group m 3 in
  let propsPart := group m 4 in
  let targetVar := group m 5 in
  let properties := parseProperties propsPart in
  let rel := {| rel_variable := relVar;
                rel_type := if isEmpty relType then "RELATED_TO" else relType;
                rel_source := sourceVar;
                rel_target := targetVar;
                rel_properties := orUndefined properties |} in
  let st1 := {| st_nodes := st_nodes st;
                st_relationships := st_relationships st ++ [rel];
                st_nodeMap := st_nodeMap st |} in
  ensureNode targetVar (ensureNode sourceVar st1).

Definition scanNodes (normalizedQuery : string) : ParseState :=
  foldl nodeStep initialState (execAll nodePattern normalizedQuery).

Definition scanRelationships (normalizedQuery : string) (st : ParseState) : ParseState :=
  foldl relStep st (execAll relPattern normalizedQuery).

Definition parseCypherQuery (query : string) : GraphPattern :=
  let normalizedQuery := normalizeQuery query in
  let st := scanRelationships normalizedQuery (scanNodes normalizedQuery) in
  {| nodes := st_nodes st; relationships := st_relationships st |}.

End ParseCypherQuery.


(** ** JavaScript values *)

Module Js.
Import JsString.

#[local] Set Warnings "-register-all".

(** The values that cross the boundary of the driver: primitives, arrays
    and plain objects given by their own enumerable properties in
    enumeration order. The numbers are the safe integers, of absolute
    value below 2^53: a fraction, an infinity and [NaN] have no term, and
    [JsNumber n] for a larger [n] stands for no value of the program. *)
Inductive JsValue : Type :=
| JsUndefined
| JsNull
| JsBoolean (b : bool)
| JsNumber (n : Z)
| JsStr (s : string)
| JsArray (elems : list JsValue)
| JsObject (props : list (string * JsValue)).

(** What a [throw] carries: an [Error] with its message, or any other
    value. *)
Inductive Thrown : Type :=
| ThrownError (message : string)
| ThrownOther (v : JsValue).

(** The completion of a call: a returned value or a thrown one. *)
Inductive Outcome (A : Type) : Type :=
| Returned (a : A)
| Threw (e : Thrown).
Arguments Returned {A} a.
Arguments Threw {A} e.

(** [typeof v] *)
Definition typeof (v : JsValue) : string :=
  match v with
  | JsUndefined => "undefined"
  | JsNull => "object"
  | JsBoolean _ => "boolean"
  | JsNumber _ => "number"
  | JsStr _ => "string"
  | JsArray _ => "object"
  | JsObject _ => "object"
  end.

(** The conversion to boolean of [if (v)], [v || w] and [!v]. *)
Definition truthy (v : JsValue) : bool :=
  match v with
  | JsUndefined | JsNull => false
  | JsBoolean b => b
  | JsNumber n => negb (n =? 0)%Z
  | JsStr s => negb (isEmpty s)
  | JsArray _ | JsObject _ => true
  end.

Fixpoint lookupProp (props : list (string * JsValue)) (key : string) : JsValue :=
  match props with
  | (k, v) :: props' => if String.eqb k key then v else lookupProp props' key
  | [] => JsUndefined
  end.

(** [v.key] for a [v] that is neither [null] nor [undefined]; of the
    values modelled only a plain object has properties with such names. *)
Definition getProp (v : JsValue) (key : string) : JsValue :=
  match v with
  | JsObject props => lookupProp props key
  | _ => JsUndefined
  end.

Definition natToString (n : nat) : string :=
  NilZero.string_of_uint (Nat.to_uint n).

(** [String(n)] for a safe integer [n]: its decimal digits. Beyond 2^53
    JavaScript prints the shortest digits that read back as the number,
    and from 10^21 on an exponent; this function is not meant there. *)
Definition numberToString (n : Z) : string :=
  NilZero.string_of_int (Z.to_int n).

(** [String(v)], also the conversion of a template literal. *)
Fixpoint toString (v : JsValue) : string :=
  match v with
  | JsUndefined => "undefined"
  | JsNull => "null"
  | JsBoolean b => if b then "true" else "false"
  | JsNumber n => numberToString n
  | JsStr s => s
  | JsArray elems =>
      join (map (fun e => match e with
                          | JsUndefined | JsNull => EmptyString
                          | _ => toString e
                          end) elems) ","
  | JsObject _ => "[object Object]"
  end.

Definition hexDigit (n : nat) : ascii :=
  if (n <? 10)%nat then ascii_of_nat (48 + n) else ascii_of_nat (87 + n).

(** The escape of one code unit inside a JSON string. *)
Definition jsonEscape (c : ascii) : string :=
  let n := nat_of_ascii c in
  let bs := String (ascii_of_nat 92) EmptyString in
  match n with
  | 34 => bs +:+ dq
  | 92 => bs +:+ bs
  | 8 => bs +:+ "b"
  | 12 => bs +:+ "f"
  | 10 => bs +:+ "n"
  | 13 => bs +:+ "r"
  | 9 => bs +:+ "t"
  | _ =>
      if (n <? 32)%nat
      then bs +:+ "u00" +:+ String (hexDigit (n / 16)) (String (hexDigit (n mod 16)) EmptyString)
      else String c EmptyString
  end.

Fixpoint jsonQuoteBody (s : string) : string :=
  match s with
  | String c s' => jsonEscape c +:+ jsonQuoteBody s'
  | EmptyString => EmptyString
  end.

Definition jsonQuote (s : string) : string := dq +:+ jsonQuoteBody s +:+ dq.

(** [JSON.stringify(v)] for a [v] other than [undefined]: a property
    whose value is [undefined] is left out of an object, an element that
    is [undefined] is written [null] in an array. *)
Fixpoint stringify (v : JsValue) : string :=
  match v with
  | JsUndefined => "null"
  | JsNull => "null"
  | JsBoolean b => if b then "true" else "false"
  | JsNumber n => numberToString n
  | JsStr s => jsonQuote s
  | JsArray elems => "[" +:+ join (map stringify elems) "," +:+ "]"
  | JsObject props =>
      "{" +:+
      join (omap (fun '(k, w) => match w with
                                 | JsUndefined => None
                                 | _ => Some (jsonQuote k +:+ ":" +:+ stringify w)
                                 end) props) ","
      +:+ "}"
  end.

(** [Object.entries(v)]: a [TypeError] on [null] and [undefined], the
    indexed elements of an array or a string, nothing for the other
    primitives. *)
Definition indexed {A : Type} (f : A -> JsValue) (l : list A) : list (string * JsValue) :=
  imap (fun i a => (natToString i, f a)) l.

Definition objectEntries (v : JsValue) : Outcome (list (string * JsValue)) :=
  match v with
  | JsUndefined | JsNull =>
      Threw (ThrownError "Cannot convert undefined or null to object")
  | JsObject props => Returned props
  | JsArray elems => Returned (indexed id elems)
  | JsStr s =>
      Returned (indexed (fun c => JsStr (String c EmptyString)) (list_ascii_of_string s))
  | JsBoolean _ | JsNumber _ => Returned []
  end.

End Js.


(** ** The world of the asynchronous code

    The two collaborators that the code awaits are outside it: the chat
    transport behind [chatAPI.sendMessages] and the Neo4j server behind
    [session.run]. Each one answers a call knowing all the calls made to it
    so far, the current one last, with a value or a thrown one. The [World]
    holds the singleton [neo4jConnection] and both call histories. *)

Module Async.
Import JsString Js.

(** [IntermediateChatMessageType]; the reply of [sendMessages] has the
    same shape. *)
Inductive Role : Type := system | user | assistant.

Record ChatMessage : Type := {
  content : string;
  role : Role;
  stage : string
}.

(** A record of a result ([Record] of the driver): the keys of the
    projection and the values of one row. *)
Record Neo4jRecord : Type := {
  rec_keys : list string;
  rec_fields : list JsValue
}.

(** The result of [session.run], as far as [runCypherQuery] reads it:
    [records], [summary.query.text], [summary.query.parameters] and
    [summary.counters.updates]. *)
Record QueryResult : Type := {
  qr_records : list Neo4jRecord;
  qr_query_text : string;
  qr_query_parameters : JsValue;
  qr_counters_updates : JsValue
}.

(** A call of [session.run(query, params)]. *)
Abbreviation Run := (string * JsValue)%type.

(** The driver created by [connect]. *)
Record Driver : Type := {
  driver_uri : string;
  driver_username : string
}.

Record World : Type := {
  (** [neo4jConnection.driver], [None] for [null] *)
  driver : option Driver;
  (** [neo4jConnection._database] *)
  database : string;
  (** the calls of [chatAPI.sendMessages], oldest first *)
  sent : list (list ChatMessage);
  (** the calls of [session.run], oldest first *)
  issued : list Run
}.

Definition M (A : Type) : Type := World -> Outcome A * World.

Definition ret {A : Type} (a : A) : M A := fun w => (Returned a, w).

Definition throw {A : Type} (e : Thrown) : M A := fun w => (Threw e, w).

Definition bind {A B : Type} (m : M A) (f : A -> M B) : M B :=
  fun w =>
    match m w with
    | (Returned a, w') => f a w'
    | (Threw e, w') => (Threw e, w')
    end.

(** [try { body } catch (error) { handler }] *)
Definition tryCatch {A : Type} (body : M A) (handler : Thrown -> M A) : M A :=
  fun w =>
    match body w with
    | (Returned a, w') => (Returned a, w')
    | (Threw e, w') => handler e w'
    end.

(** A computation that touches no state. *)
Definition lift {A : Type} (o : Outcome A) : M A := fun w => (o, w).

End Async.

Notation "'let*' x ':=' m 'in' k" := (Async.bind m (fun x => k))
  (at level 10, x pattern, m at level 100, k at level 200).

(** ** [utils/neo4j/neo4jConnection] and [utils/neo4j/runCypherQuery] *)

Module RunCypherQuery.
Import JsString Js Async.

Section Executor.

(** The server: the outcome of the last run of a history of runs. *)
Variable neo4j : list Run -> Outcome QueryResult.

(** [neo4jConnection.isConnected()] *)
Definition isConnected (w : World) : bool :=
  match driver w with Some _ => true | None => false end.

(** [neo4jConnection.runQuery(query, params)]: [getSession] gives
    [null] without a driver; otherwise the session runs the query and
    is closed whatever the outcome. *)
Definition runQuery (query : string) (params : JsValue) : M QueryResult :=
  fun w =>
    match driver w with
    | None => (Threw (ThrownError "Not connected to Neo4j"), w)
    | Some _ =>
        let runs := issued w ++ [(query, params)] in
        (neo4j runs,
         {| driver := driver w; database := database w;
            sent := sent w; issued := runs |})
    end.

(** [CypherResult] *)
Record CypherResult : Type := {
  records : list Neo4jRecord;
  summary_query : string;
  summary_parameters : JsValue;
  summary_counters : JsValue
}.

(** [runCypherQuery(query, params)]; the [catch] logs and rethrows. *)
Definition runCypherQuery (query : string) (params : JsValue) : M CypherResult :=
  fun w =>
    if negb (isConnected w) then (Threw (ThrownError "Not connected to Neo4j"), w)
    else
      tryCatch
        (let* result := runQuery query params in
         ret {| records := qr_records result;
                summary_query := qr_query_text result;
                summary_parameters := qr_query_parameters result;
                summary_counters := qr_counters_updates result |})
        (fun error => throw error) w.

End Executor.

(** The index that the driver keeps for a key: the last position of the
    key among the keys. *)
Fixpoint fieldIndex (keys : list string) (key : string) : option nat :=
  match keys with
  | [] => None
  | k :: keys' =>
      match fieldIndex keys' key with
      | Some i => Some (S i)
      | None => if String.eqb k key then Some 0 else None
      end
  end.

(** The names that a plain object inherits from [Object.prototype]. *)
Definition objectPrototypeNames : list string :=
  [ "constructor"; "hasOwnProperty"; "isPrototypeOf"; "propertyIsEnumerable";
    "toLocaleString"; "toString"; "valueOf"; "__proto__";
    "__defineGetter__"; "__defineSetter__"; "__lookupGetter__"; "__lookupSetter__" ].

Definition inherited (key : string) : bool :=
  existsb (String.eqb key) objectPrototypeNames.

(** [record.get(key)] for a string key. The class [Record] belongs to the
    package [neo4j-driver], outside the repository; this is its behaviour
    in version 5. The record keeps the index of its keys in a plain
    object filled by [lookup[name] = idx], reads [lookup[key]], throws
    when this is [undefined] and when it is a number without a field.
    The assignment of a number to [__proto__] is ignored, and the read of
    an inherited name that is not a key gives an object or a function:
    this is not [undefined], it fails both comparisons with the bounds,
    and the fields indexed by it give [undefined]. *)
Definition recordGet (record : Neo4jRecord) (key : string) : Outcome JsValue :=
  if String.eqb key "__proto__" then Returned JsUndefined
  else
    match fieldIndex (rec_keys record) key with
    | None =>
        if inherited key then Returned JsUndefined
        else
          Threw (ThrownError ("This record has no field with key '" +:+ key
                              +:+ "', available keys are: ["
                              +:+ join (rec_keys record) "," +:+ "]."))
    | Some index =>
        match rec_fields record !! index with
        | Some v => Returned v
        | None =>
            Threw (ThrownError ("This record has no field with index '"
                                +:+ natToString index
                                +:+ "'. Remember that indexes start at `0`, "
                                +:+ "and make sure your query returns records "
                                +:+ "in the shape you meant it to."))
        end
    end.

(** [xs.map(f)] for an [f] that may throw: the first throw ends it. *)
Fixpoint mapOutcome {A B : Type} (f : A -> Outcome B) (xs : list A) : Outcome (list B) :=
  match xs with
  | [] => Returned []
  | x :: xs' =>
      match f x with
      | Threw e => Threw e
      | Returned y =>
          match mapOutcome f xs' with
          | Threw e => Threw e
          | Returned ys => Returned (y :: ys)
          end
      end
  end.

(** [FormattedCypherResult] *)
Record FormattedCypherResult : Type := {
  columns : list string;
  rows : list (list JsValue);
  fsummary_query : string;
  fsummary_parameters : JsValue;
  fsummary_counters : JsValue
}.

(** [formatCypherResult(result)]. The keys of a record are strings, so
    [String(key)] is [key]; the [if] on an object value has an empty body. *)
Definition formatCypherResult (result : CypherResult) : Outcome FormattedCypherResult :=
  match records result with
  | [] =>
      Returned {| columns := []; rows := [];
                  fsummary_query := summary_query result;
                  fsummary_parameters := summary_parameters result;
                  fsummary_counters := summary_counters result |}
  | first :: _ =>
      let columns := rec_keys first in
      match mapOutcome (fun record => mapOutcome (recordGet record) columns)
                       (records result) with
      | Threw e => Threw e
      | Returned rows =>
          Returned {| columns := columns; rows := rows;
                      fsummary_query := summary_query result;
                      fsummary_parameters := summary_parameters result;
                      fsummary_counters := summary_counters result |}
      end
  end.

(** One cell of the result: [{ type, value }]. *)
Record Binding : Type := {
  binding_type : string;
  binding_value : string
}.

(** The object [binding], by its own properties in insertion order. *)
Abbreviation BindingObject := (list (string * Binding)).

(** [binding[column] = b]: a new key is appended, a key already there
    keeps its place; an object assigned to [__proto__] becomes the
    prototype and adds no own property. *)
Fixpoint assign (column : string) (b : Binding) (binding : BindingObject) : BindingObject :=
  match binding with
  | [] => [(column, b)]
  | (k, b') :: rest =>
      if String.eqb k column then (k, b) :: rest
      else (k, b') :: assign column b rest
  end.

Definition setBinding (column : string) (b : Binding) (binding : BindingObject) : BindingObject :=
  if String.eqb column "__proto__" then binding else assign column b binding.

(** The type that [convertToSparqlResultsFormat] gives to a cell. *)
Definition cellType (value : JsValue) : string :=
  match value with
  | JsNull | JsUndefined => "unknown"
  | _ =>
      if String.eqb (typeof value) "object" then
        if truthy (getProp value "_labels") || truthy (getProp value "_id")
           || truthy (getProp value "_type")
        then "uri" else "object"
      else typeof value
  end.

(** The string that [convertToSparqlResultsFormat] gives to a cell. *)
Definition cellValue (value : JsValue) : string :=
  match value with
  | JsNull | JsUndefined => EmptyString
  | _ =>
      if String.eqb (typeof value) "object" then stringify value
      else toString value
  end.

(** The body of [formattedResult.columns.forEach((column, index) => ...)];
    [row[index]] is [undefined] beyond the end of the row. *)
Definition bindCell (row : list JsValue) (binding : BindingObject)
    (indexedColumn : nat * string) : BindingObject :=
  let '(index, column) := indexedColumn in
  let value := default JsUndefined (row !! index) in
  setBinding column {| binding_type := cellType value;
                       binding_value := cellValue value |} binding.

Definition bindRow (columns : list string) (row : list JsValue) : BindingObject :=
  foldl (bindCell row) [] (imap pair columns).

(** [SparqlResultsJsonType]: [head.vars] and [results.bindings]. *)
Record SparqlResultsJson : Type := {
  head_vars : list string;
  results_bindings : list BindingObject
}.

Definition convertToSparqlResultsFormat (formattedResult : FormattedCypherResult)
    : SparqlResultsJson :=
  {| head_vars := columns formattedResult;
     results_bindings := map (bindRow (columns formattedResult)) (rows formattedResult) |}.

End RunCypherQuery.


(** ** [utils/queryBuildingWorkflow] *)

Module QueryBuilding.
Import JsString Js Async RunCypherQuery.

Definition QUERY_BUILDING_MAX_LOOPS : nat := 20.
Definition ENTITY_SEARCH_PREFIX : string := "Entity Search:".
Definition PROPERTIES_SEARCH_PREFIX : string := "Properties Search:".
Definition TAIL_SEARCH_PREFIX : string := "Tail Search:".
Definition KG_NAME : string := "Neo4j Knowledge Graph".

Definition INITIAL_QUERY_BUILDING_SYSTEM_MESSAGE : string :=
  join
    [ "You are an AI assistant that helps construct Cypher queries for a Neo4j knowledge graph.";
      EmptyString;
      "The knowledge graph contains documents that have been processed into chunks and entities.";
      "Schema:";
      "- (Document) nodes represent uploaded documents";
      "- (Chunk) nodes represent pieces of those documents";
      "- (__Entity__) nodes represent entities extracted from the documents";
      "- Relationships: ";
      "  - (Chunk)-[:PART_OF]->(Document)";
      "  - (__Entity__)-[:MENTIONED_IN]->(Chunk)";
      "  - (__Entity__)-[:RELATED_TO]->(__Entity__)";
      EmptyString;
      "To build queries, you can:";
      "1. Search for entities: " +:+ dq +:+ "Entity Search: <search term>" +:+ dq;
      "2. Search for properties of an entity: " +:+ dq +:+ "Properties Search: <entity_id>" +:+ dq;
      "3. Find entities related to another entity: " +:+ dq +:+ "Tail Search: <entity_id>, <relationship_type>" +:+ dq;
      EmptyString;
      "When you're ready to stop searching and construct the query, respond with " +:+ dq +:+ "STOP" +:+ dq +:+ ".";
      EmptyString ]
    nl.

Definition QUERY_BUILDING_SYSTEM_MESSAGE : string :=
  "Now construct a Cypher query that answers the user's question using the entity and relationship IDs you've found. The query should be syntactically correct Neo4j Cypher.".

(** The three Cypher texts, line breaks and indentation included. *)
Definition entitySearchQuery : string :=
  join
    [ EmptyString;
      "      MATCH (e:__Entity__)";
      "      WHERE e.id CONTAINS $searchTerm OR e.description CONTAINS $searchTerm";
      "      RETURN e.id AS entityId, e.description AS description";
      "      LIMIT 5";
      "    " ]
    nl.

Definition propertiesSearchQuery : string :=
  join
    [ EmptyString;
      "      MATCH (e:__Entity__ {id: $entityId})";
      "      RETURN properties(e) AS properties";
      "      LIMIT 1";
      "    " ]
    nl.

(** The template literal of the tail search: [relationshipType] is
    spliced between the two constant parts. *)
Definition relatedEntitiesQueryBefore : string :=
  join
    [ EmptyString;
      "      MATCH (e1:__Entity__ {id: $entityId})-[r:" ]
    nl.

Definition relatedEntitiesQueryAfter : string :=
  join
    [ "]->(e2:__Entity__)";
      "      RETURN e2.id AS relatedEntityId, e2.description AS description";
      "      LIMIT 5";
      "    " ]
    nl.

Definition relatedEntitiesQuery (relationshipType : string) : string :=
  relatedEntitiesQueryBefore +:+ relationshipType +:+ relatedEntitiesQueryAfter.

Definition systemMessage (text stageName : string) : ChatMessage :=
  {| content := text; role := system; stage := stageName |}.

(** [error instanceof Error ? error.message : 'Unknown error'] *)
Definition errorMessage (error : Thrown) : string :=
  match error with
  | ThrownError message => message
  | ThrownOther _ => "Unknown error"
  end.

(** [a || b] on values. *)
Definition orElse (a b : JsValue) : JsValue := if truthy a then a else b.

(** [records.map(record => ...)] with the two [record.get] of the entity
    and the tail search; [idKey] is the key of the identifier. *)
Definition describeRecord (idKey : string) (record : Neo4jRecord) : Outcome string :=
  match recordGet record idKey with
  | Threw e => Threw e
  | Returned entityId =>
      match recordGet record "description" with
      | Threw e => Threw e
      | Returned description =>
          Returned (toString entityId +:+ ": "
                    +:+ toString (orElse description (JsStr "No description")))
      end
  end.

Section Workflow.

(** The chat transport: the outcome of the last call of a history of
    calls of [sendMessages]. *)
Variable llm : list (list ChatMessage) -> Outcome ChatMessage.

(** The Neo4j server, as in [RunCypherQuery]. *)
Variable neo4j : list Run -> Outcome QueryResult.

(** [chatAPI.sendMessages(messages)] *)
Definition sendMessages (messages : list ChatMessage) : M ChatMessage :=
  fun w =>
    let calls := sent w ++ [messages] in
    (llm calls,
     {| driver := driver w; database := database w;
        sent := calls; issued := issued w |}).

Definition handleEntitySearch (searchTerm : string) : M ChatMessage :=
  tryCatch
    (let* result := runCypherQuery neo4j entitySearchQuery
                      (JsObject [("searchTerm", JsStr searchTerm)]) in
     if (length (records result) =? 0)%nat then
       sendMessages
         [systemMessage
            (KG_NAME +:+ " did not find any entities matching " +:+ dq
             +:+ searchTerm +:+ dq
             +:+ ". You may need to rephrase or simplify your entity search")
            "Entity Fuzzy Searching"]
     else
       let* pieces := lift (mapOutcome (describeRecord "entityId") (records result)) in
       let entitiesText := join pieces nl in
       sendMessages
         [systemMessage
            ("Found entities in " +:+ KG_NAME +:+ ":" +:+ nl +:+ entitiesText)
            "Entity Fuzzy Searching"])
    (fun error =>
       sendMessages
         [systemMessage
            ("Error searching for entities: " +:+ errorMessage error)
            "Entity Fuzzy Searching"]).

(** [Object.entries(properties).map(([key, value]) => ...).join('\n')] *)
Definition propertiesText (properties : JsValue) : Outcome string :=
  match objectEntries properties with
  | Threw e => Threw e
  | Returned entries =>
      Returned (join (map (fun '(key, value) => key +:+ ": " +:+ toString value)
                          entries) nl)
  end.

Definition handlePropertiesSearch (entityId : string) : M ChatMessage :=
  tryCatch
    (let* result := runCypherQuery neo4j propertiesSearchQuery
                      (JsObject [("entityId", JsStr entityId)]) in
     match records result with
     | [] =>
         sendMessages
           [systemMessage
              (KG_NAME +:+ " did not find any entity with ID " +:+ dq
               +:+ entityId +:+ dq +:+ ". Are you sure that entity exists?")
              "Property Search"]
     | first :: _ =>
         let* properties := lift (recordGet first "properties") in
         let* text := lift (propertiesText properties) in
         sendMessages
           [systemMessage
              ("Properties for entity " +:+ entityId +:+ ":" +:+ nl +:+ text)
              "Property Search"]
     end)
    (fun error =>
       sendMessages
         [systemMessage
            ("Error getting properties for entity: " +:+ errorMessage error)
            "Property Search"]).

Definition formatErrorMessage : ChatMessage :=
  systemMessage
    "Your response did not follow the correct format. Please provide: Entity ID, Relationship Type"
    "Tail Search".

(** The search that follows the destructuring
    [const [entityId, relationshipType] = split.map(s => s.trim())]. *)
Definition searchRelatedEntities (entityId relationshipType : string) : M ChatMessage :=
  tryCatch
    (let* result := runCypherQuery neo4j (relatedEntitiesQuery relationshipType)
                      (JsObject [("entityId", JsStr entityId)]) in
     if (length (records result) =? 0)%nat then
       sendMessages
         [systemMessage
            (KG_NAME +:+ " did not find any entities connected to " +:+ dq
             +:+ entityId +:+ dq +:+ " via " +:+ dq +:+ relationshipType +:+ dq
             +:+ " relationship. Are you sure that entity has that relationship?")
            "Tail Search"]
     else
       let* pieces := lift (mapOutcome (describeRecord "relatedEntityId") (records result)) in
       let relatedEntitiesText := join pieces nl in
       sendMessages
         [systemMessage
            ("Related entities via " +:+ relationshipType +:+ ":" +:+ nl
             +:+ relatedEntitiesText)
            "Tail Search"])
    (fun error =>
       sendMessages
         [systemMessage
            ("Error finding related entities: " +:+ errorMessage error)
            "Tail Search"]).

Definition handleRelatedEntitiesSearch (text : string) : M ChatMessage :=
  match trim <$> split text "," with
  | [entityId; relationshipType] => searchRelatedEntities entityId relationshipType
  | _ => sendMessages [formatErrorMessage]
  end.

(** The branch of the [if] chain that a reply takes, with the argument
    that the branch hands to its handler. *)
Inductive SearchAction : Type :=
| Stop
| EntitySearch (searchTerm : string)
| PropertiesSearch (entityId : string)
| RelatedEntitiesSearch (text : string)
| Invalid.

(** [pieces[1].trim()]; reading [trim] of [undefined] is a [TypeError]. *)
Definition secondTrimmed (pieces : list string) : Outcome string :=
  match pieces !! 1 with
  | Some piece => Returned (trim piece)
  | None => Threw (ThrownError "Cannot read properties of undefined (reading 'trim')")
  end.

Definition outcomeMap {A B : Type} (f : A -> B) (o : Outcome A) : Outcome B :=
  match o with
  | Returned a => Returned (f a)
  | Threw e => Threw e
  end.

(** The conditions of the loop body, in their order. *)
Definition classify (replyContent : string) : Outcome SearchAction :=
  let responseText := trim replyContent in
  if String.eqb (toUpperCase responseText) "STOP" then Returned Stop
  else if includes responseText ENTITY_SEARCH_PREFIX then
    outcomeMap EntitySearch (secondTrimmed (split responseText ENTITY_SEARCH_PREFIX))
  else if includes responseText PROPERTIES_SEARCH_PREFIX then
    outcomeMap PropertiesSearch (secondTrimmed (split responseText PROPERTIES_SEARCH_PREFIX))
  else if startsWith responseText TAIL_SEARCH_PREFIX then
    Returned (RelatedEntitiesSearch (trim (replace responseText TAIL_SEARCH_PREFIX EmptyString)))
  else Returned Invalid.

Definition invalidResponseMessage : ChatMessage :=
  systemMessage
    ("That was an invalid response. If you are done, just respond with STOP. "
     +:+ "Follow the specified format. " +:+ INITIAL_QUERY_BUILDING_SYSTEM_MESSAGE)
    "Query Building".

(** The [while] loop. [budget] is
    [QUERY_BUILDING_MAX_LOOPS - NO_FOREVER_LOOP]: the test
    [NO_FOREVER_LOOP < QUERY_BUILDING_MAX_LOOPS] fails when it is zero.
    The loop gives back the counter and the last reply. *)
Fixpoint queryBuildingLoop (budget : nat) (NO_FOREVER_LOOP : nat)
    (llmResponse : ChatMessage) : M (nat * ChatMessage) :=
  match budget with
  | O => ret (NO_FOREVER_LOOP, llmResponse)
  | S budget' =>
      let NO_FOREVER_LOOP := S NO_FOREVER_LOOP in
      let* action := lift (classify (content llmResponse)) in
      match action with
      | Stop => ret (NO_FOREVER_LOOP, llmResponse)
      | EntitySearch searchTerm =>
          let* llmResponse := handleEntitySearch searchTerm in
          queryBuildingLoop budget' NO_FOREVER_LOOP llmResponse
      | PropertiesSearch entityId =>
          let* llmResponse := handlePropertiesSearch entityId in
          queryBuildingLoop budget' NO_FOREVER_LOOP llmResponse
      | RelatedEntitiesSearch text =>
          let* llmResponse := handleRelatedEntitiesSearch text in
          queryBuildingLoop budget' NO_FOREVER_LOOP llmResponse
      | Invalid =>
          let* llmResponse := sendMessages [invalidResponseMessage] in
          queryBuildingLoop budget' NO_FOREVER_LOOP llmResponse
      end
  end.

Definition initialMessage : ChatMessage :=
  systemMessage INITIAL_QUERY_BUILDING_SYSTEM_MESSAGE "Query Building".

Definition finalMessage (text : string) : ChatMessage :=
  systemMessage
    (QUERY_BUILDING_SYSTEM_MESSAGE
     +:+ " Now construct a query that answers the user's question: " +:+ text)
    "Query Building".

Definition queryBuildingWorkflow (text : string) : M ChatMessage :=
  let* llmResponse := sendMessages [initialMessage] in
  let* looped := queryBuildingLoop QUERY_BUILDING_MAX_LOOPS 0 llmResponse in
  sendMessages [finalMessage text].

End Workflow.

End QueryBuilding.


(** ** Vocabulary of the statements

    Notions that the statements below use and the code does not have. *)

Module Vocabulary.
Import JsString Regex Js Async RunCypherQuery.

(** The piece of [rest] up to the next occurrence of [sep], all of
    [rest] when there is none. *)
Definition upToNext (rest sep : string) : string :=
  match indexOf rest sep with
  | Some j => take j rest
  | None => rest
  end.

(** The number of occurrences of a code unit. *)
Fixpoint countChar (c : ascii) (s : string) : nat :=
  match s with
  | String d s' => (if Ascii.eqb c d then 1 else 0) + countChar c s'
  | EmptyString => 0
  end.

Fixpoint allChars (p : ascii -> bool) (s : string) : bool :=
  match s with
  | String c s' => p c && allChars p s'
  | EmptyString => true
  end.

(** The allow-list of the specification for a relationship type:
    letters, digits and the underscore only. *)
Definition allowedRelationshipType (relationshipType : string) : bool :=
  allChars word relationshipType.

(** A text that is empty or ends with a code unit that is not white
    space, and one that is empty or starts with such a code unit. *)
Fixpoint endsBlack (m : string) : bool :=
  match m with
  | EmptyString => true
  | String d EmptyString => negb (isWhiteSpace d)
  | String _ m' => endsBlack m'
  end.

Definition startsBlack (m : string) : bool :=
  match m with
  | EmptyString => true
  | String d _ => negb (isWhiteSpace d)
  end.

Definition isReturned {A : Type} (o : Outcome A) : Prop :=
  match o with Returned _ => True | Threw _ => False end.

(** The world after one more call of [sendMessages]. *)
Definition afterSend (w : World) (messages : list ChatMessage) : World :=
  {| driver := driver w; database := database w;
     sent := sent w ++ [messages]; issued := issued w |}.

(** The world after one more call of [session.run]. *)
Definition afterRun (w : World) (run : Run) : World :=
  {| driver := driver w; database := database w;
     sent := sent w; issued := issued w ++ [run] |}.

(** A computation that leaves the server alone: it issues no query and
    keeps the connection. *)
Definition serverIdle {A : Type} (m : M A) : Prop :=
  forall w o w', m w = (o, w') -> issued w' = issued w /\ driver w' = driver w.

(** A result as the driver builds it: every record has the keys of the
    first one and one field for each key. *)
Definition wellShaped (records : list Neo4jRecord) : Prop :=
  forall first, head records = Some first ->
    Forall (fun record => rec_keys record = rec_keys first
                          /\ length (rec_fields record) = length (rec_keys record))
           records.

(** The keys that the formatter reports: those of the first record. *)
Definition firstKeys (records : list Neo4jRecord) : list string :=
  match records with
  | first :: _ => rec_keys first
  | [] => []
  end.

(** The binding of a cell value. *)
Definition cellBinding (value : JsValue) : Binding :=
  {| binding_type := cellType value; binding_value := cellValue value |}.

(** A graph-entity marker as the code tests it: a truthy own property
    [_labels], [_id] or [_type]. *)
Definition hasEntityMarker (props : list (string * JsValue)) : bool :=
  truthy (lookupProp props "_labels") || truthy (lookupProp props "_id")
  || truthy (lookupProp props "_type").

(** The JSON text of an object with the one property [key] holding the
    array of the one string [Person]. *)
Definition personJson (key : string) : string :=
  "{" +:+ dq +:+ key +:+ dq +:+ ":[" +:+ dq +:+ "Person" +:+ dq +:+ "]}".

(** The node that the relationship scan adds for a variable that the
    node scan did not register. *)
Definition placeholder (variable : string) : ParseCypherQuery.Neo4jNode :=
  {| ParseCypherQuery.node_variable := variable;
     ParseCypherQuery.node_labels := [];
     ParseCypherQuery.node_properties := None |}.

Definition labelledNode (variable : string) (labels : list string)
    : ParseCypherQuery.Neo4jNode :=
  {| ParseCypherQuery.node_variable := variable;
     ParseCypherQuery.node_labels := labels;
     ParseCypherQuery.node_properties := None |}.

Definition plainRelationship (type source target : string)
    : ParseCypherQuery.Neo4jRelationship :=
  {| ParseCypherQuery.rel_variable := None;
     ParseCypherQuery.rel_type := type;
     ParseCypherQuery.rel_source := source;
     ParseCypherQuery.rel_target := target;
     ParseCypherQuery.rel_properties := None |}.

(** Every variable of the map [nodeMap] is the variable of a node of the
    array [nodes]. *)
Definition nodesCoverMap (st : ParseCypherQuery.ParseState) : Prop :=
  forall v, ParseCypherQuery.hasNode st v = true ->
    exists node, node ∈ ParseCypherQuery.st_nodes st
                 /\ ParseCypherQuery.node_variable node = v.

(** Both ends of every relationship collected so far are in [nodeMap]. *)
Definition endsRegistered (st : ParseCypherQuery.ParseState) : Prop :=
  forall r, r ∈ ParseCypherQuery.st_relationships st ->
    ParseCypherQuery.hasNode st (ParseCypherQuery.rel_source r) = true
    /\ ParseCypherQuery.hasNode st (ParseCypherQuery.rel_target r) = true.

(** A variable registered since the state [st0] has its placeholder among
    the nodes. *)
Definition newAreBare (st0 st : ParseCypherQuery.ParseState) : Prop :=
  forall v, ParseCypherQuery.hasNode st0 v = false ->
    ParseCypherQuery.hasNode st v = true ->
    placeholder v ∈ ParseCypherQuery.st_nodes st.

(** A lower bound on the number of code units that a match of a
    regular expression consumes. *)
Fixpoint minLength (r : regex) : nat :=
  match r with
  | Eps | Bol | Eol | Star _ | Opt _ => 0
  | Chr _ | Cls _ | Plus _ => 1
  | Seq r1 r2 => minLength r1 + minLength r2
  | Alt r1 r2 => Nat.min (minLength r1) (minLength r2)
  | Grp _ r1 => minLength r1
  end.

Section Turns.

Variable llm : list (list ChatMessage) -> Outcome ChatMessage.

(** A computation that, once the transport answers, either returns the
    answer to the one message it sent or throws before sending. *)
Definition oneTurnOrThrow (m : M ChatMessage) : Prop :=
  forall w,
    (exists reply messages,
       m w = (Returned reply, afterSend w messages)
       /\ llm (sent w ++ [messages]) = Returned reply)
    \/ (exists e, m w = (Threw e, w)).

(** A computation that returns the answer to the one message it sends. *)
Definition oneTurn (m : M ChatMessage) : Prop :=
  forall w, exists reply messages,
    m w = (Returned reply, afterSend w messages)
    /\ llm (sent w ++ [messages]) = Returned reply.

(** One pass of the three handlers: one message goes out, its answer
    comes back, at most one query is issued. *)
Definition searchTurn (m : M ChatMessage) : Prop :=
  forall w, exists reply messages w1,
    m w = (Returned reply, afterSend w1 messages)
    /\ llm (sent w ++ [messages]) = Returned reply
    /\ (w1 = w \/ exists run, w1 = afterRun w run).

End Turns.

End Vocabulary.

(** ** Scenarios

    Concrete worlds, transports and servers on which the statements are
    exercised. *)

Module Scenario.
Import JsString Js Async RunCypherQuery QueryBuilding.

Definition connectedWorld : World :=
  {| driver := Some {| driver_uri := "bolt://localhost:7687";
                       driver_username := "neo4j" |};
     database := "neo4j"; sent := []; issued := [] |}.

Definition disconnectedWorld : World :=
  {| driver := None; database := "neo4j"; sent := []; issued := [] |}.

Definition assistantReply (text : string) : ChatMessage :=
  {| content := text; role := assistant; stage := "Query Building" |}.

(** A transport that answers its calls with [replies], in order, and
    with [fallback] once they are used up. *)
Definition scripted (replies : list string) (fallback : string)
    (calls : list (list ChatMessage)) : Outcome ChatMessage :=
  Returned (assistantReply (default fallback (replies !! (length calls - 1)))).

(** A server where nothing matches. *)
Definition emptyServer (runs : list Run) : Outcome QueryResult :=
  Returned {| qr_records := [];
              qr_query_text := default EmptyString (fst <$> last runs);
              qr_query_parameters := default JsUndefined (snd <$> last runs);
              qr_counters_updates := JsObject [] |}.

(** A server that rejects every query. *)
Definition failingServer (runs : list Run) : Outcome QueryResult :=
  Threw (ThrownError "Invalid input").

(** The cell values of the row of the specification and the same row
    with the marker that the code looks for. *)
Definition labelled : JsValue := JsObject [("labels", JsArray [JsStr "Person"])].
Definition marked : JsValue := JsObject [("_labels", JsArray [JsStr "Person"])].

Definition formatted (columns : list string) (rows : list (list JsValue))
    : FormattedCypherResult :=
  {| columns := columns; rows := rows;
     fsummary_query := "MATCH (n) RETURN n"; fsummary_parameters := JsObject [];
     fsummary_counters := JsObject [] |}.

Definition cypherResult (records : list Neo4jRecord) : CypherResult :=
  {| records := records;
     summary_query := "MATCH (n) RETURN n"; summary_parameters := JsObject [];
     summary_counters := JsObject [] |}.

End Scenario.

(** ** [utils/neo4j/neo4jConnection], the rest of the class *)

Module Neo4jConnection.
Import JsString Js Async RunCypherQuery.

Section Connection.

(** [createDriver(uri, auth.basic(username, password), config)] of the
    driver package: a driver, or a throw on a malformed address. *)
Variable createDriver : string -> string -> string -> Outcome Driver.

(** The server, as in [RunCypherQuery]. *)
Variable neo4j : list Run -> Outcome QueryResult.

(** [this.driver = d] *)
Definition setDriver (d : option Driver) : M unit :=
  fun w => (Returned tt,
            {| driver := d; database := database w;
               sent := sent w; issued := issued w |}).

(** [this._database = name] *)
Definition setDatabase (name : string) : M unit :=
  fun w => (Returned tt,
            {| driver := driver w; database := name;
               sent := sent w; issued := issued w |}).

(** [close()] *)
Definition close : M unit :=
  fun w =>
    match driver w with
    | Some _ => setDriver None w
    | None => (Returned tt, w)
    end.

(** [connect(uri, username, password, database = 'neo4j')]; [database]
    is [None] when the argument is left out. *)
Definition connect (uri username password : string) (databaseArg : option string)
    : M bool :=
  let databaseName := default "neo4j" databaseArg in
  tryCatch
    (let* closed := (fun w => if isConnected w then close w else (Returned tt, w)) in
     let* created := lift (createDriver uri username password) in
     let* stored := setDriver (Some created) in
     let* named := setDatabase databaseName in
     ret true)
    (fun error => ret false).

(** [verifyConnection()] *)
Definition verifyConnection : M bool :=
  tryCatch
    (let* result := runQuery neo4j "RETURN 1 as n" (JsObject []) in
     ret (0 <? length (qr_records result)))
    (fun error => ret false).

(** [getDatabases()] *)
Definition getDatabases : M (list JsValue) :=
  fun w =>
    if negb (isConnected w) then (Returned [], w)
    else
      tryCatch
        (let* result := runQuery neo4j "SHOW DATABASES YIELD name RETURN name"
                          (JsObject []) in
         lift (mapOutcome (fun record => recordGet record "name") (qr_records result)))
        (fun error => ret []) w.

(** [v[0]]: a [TypeError] on [null] and [undefined], the first element of
    an array or of a string, [undefined] otherwise. *)
Definition firstElement (v : JsValue) : Outcome JsValue :=
  match v with
  | JsUndefined =>
      Threw (ThrownError "Cannot read properties of undefined (reading '0')")
  | JsNull =>
      Threw (ThrownError "Cannot read properties of null (reading '0')")
  | JsArray elems => Returned (default JsUndefined (head elems))
  | JsStr (String c _) => Returned (JsStr (String c EmptyString))
  | JsObject props => Returned (lookupProp props "0")
  | _ => Returned JsUndefined
  end.

(** The object that [getDatabaseInfo] returns. *)
Record DatabaseInfo : Type := {
  info_name : JsValue;
  info_version : JsValue;
  info_edition : JsValue
}.

(** [getDatabaseInfo()]; [None] is [null]. *)
Definition getDatabaseInfo : M (option DatabaseInfo) :=
  fun w =>
    if negb (isConnected w) then (Returned None, w)
    else
      tryCatch
        (let* result := runQuery neo4j
           "CALL dbms.components() YIELD name, versions, edition RETURN name, versions, edition"
           (JsObject []) in
         match qr_records result with
         | record :: _ =>
             let* name := lift (recordGet record "name") in
             let* versions := lift (recordGet record "versions") in
             let* version := lift (firstElement versions) in
             let* edition := lift (recordGet record "edition") in
             ret (Some {| info_name := name; info_version := version;
                          info_edition := edition |})
         | [] => ret None
         end)
        (fun error => ret None) w.

End Connection.

End Neo4jConnection.

(** ** [utils/neo4j/transformCyphertoGraphin] and its caller [QueryGraph] *)

Module Graphin.
Import JsString Regex ParseCypherQuery.

(** The conversion of a number to a signed integer of 32 bits that the
    shift operators make. *)
Definition toInt32 (z : Z) : Z :=
  let m := (z mod 2 ^ 32)%Z in
  if (m <? 2 ^ 31)%Z then m else (m - 2 ^ 32)%Z.

(** The first loop of [getColorByLabel], from the value [hash] on:
    [hash = label.charCodeAt(i) + ((hash << 5) - hash)]. The shift wraps
    to 32 bits, the subtraction and the addition are those of numbers;
    they are exact as long as the values stay below 2^53, which holds
    for a label of less than two million code units. *)
Fixpoint hashFrom (hash : Z) (label : string) : Z :=
  match label with
  | String c rest =>
      hashFrom (Z.of_nat (nat_of_ascii c)
                + (toInt32 (Z.shiftl (toInt32 hash) 5) - hash))%Z rest
  | EmptyString => hash
  end.

(** [value.toString(16)] for a [value] that is not negative. *)
Definition toHex (value : Z) : string :=
  HexadecimalString.NilZero.string_of_uint (N.to_hex_uint (Z.to_N value)).

(** [s.substr(-n)]: the last [n] code units. *)
Definition substrFromEnd (n : nat) (s : string) : string :=
  drop (String.length s - n) s.

(** The body of the second loop: the two digits of the byte [i] of the
    hash. *)
Definition colorByte (hash : Z) (i : nat) : string :=
  let value := Z.land (Z.shiftr (toInt32 hash) (Z.of_nat (i * 8))) 255 in
  substrFromEnd 2 ("00" +:+ toHex value).

Definition getColorByLabel (label : string) : string :=
  let hash := hashFrom 0 label in
  foldl (fun color i => color +:+ colorByte hash i) "#" [0; 1; 2].

(** A number written with a decimal point in the source. *)
Definition decimal (units : Decimal.uint) (fraction : Decimal.uint) : Decimal.decimal :=
  Decimal.Decimal (Decimal.Pos units) fraction.

(** The node that [createGraphinNode] builds: [id], [style.keyshape],
    [style.label.value], [data]. *)
Record GraphinNode : Type := {
  gnode_id : string;
  gnode_keyshape_fill : string;
  gnode_keyshape_stroke : string;
  gnode_keyshape_opacity : Decimal.decimal;
  gnode_label_value : string;
  gnode_data_label : string;
  gnode_data_properties : Properties
}.

(** The edge that [createGraphinEdge] builds: [id], [source], [target],
    [style.label] with its [background], [style.keyshape], [data]. *)
Record GraphinEdge : Type := {
  gedge_id : string;
  gedge_source : string;
  gedge_target : string;
  gedge_label_value : string;
  gedge_label_fill : string;
  gedge_label_fontSize : Z;
  gedge_background_fill : string;
  gedge_background_stroke : string;
  gedge_background_radius : Z;
  gedge_keyshape_stroke : string;
  gedge_keyshape_lineDash : list Z;
  gedge_keyshape_lineWidth : Z;
  gedge_keyshape_opacity : Decimal.decimal;
  gedge_data_type : string;
  gedge_data_properties : Properties
}.

(** [GraphinData] *)
Record GraphinData : Type := {
  gnodes : list GraphinNode;
  gedges : list GraphinEdge
}.

(** [a || b] on strings. *)
Definition orString (a b : string) : string := if isEmpty a then b else a.

Definition createGraphinNode (node : Neo4jNode) : GraphinNode :=
  let primaryLabel := orString (default EmptyString (head (node_labels node))) "Node" in
  let color := getColorByLabel primaryLabel in
  {| gnode_id := node_variable node;
     gnode_keyshape_fill := color;
     gnode_keyshape_stroke := "#fff";
     gnode_keyshape_opacity := decimal (Decimal.D0 Decimal.Nil) (Decimal.D8 (Decimal.D5 Decimal.Nil));
     gnode_label_value := node_variable node +:+ ":" +:+ join (node_labels node) ":";
     gnode_data_label := primaryLabel;
     gnode_data_properties := default ∅ (node_properties node) |}.

Definition createGraphinEdge (relationship : Neo4jRelationship) : GraphinEdge :=
  {| gedge_id :=
       orString (default EmptyString (rel_variable relationship))
         (rel_source relationship +:+ "-" +:+ rel_type relationship +:+ "->"
          +:+ rel_target relationship);
     gedge_source := rel_source relationship;
     gedge_target := rel_target relationship;
     gedge_label_value := rel_type relationship;
     gedge_label_fill := "#fff";
     gedge_label_fontSize := 12;
     gedge_background_fill := "#1890ff";
     gedge_background_stroke := "#1890ff";
     gedge_background_radius := 8;
     gedge_keyshape_stroke := "#1890ff";
     gedge_keyshape_lineDash := [0; 0]%Z;
     gedge_keyshape_lineWidth := 1;
     gedge_keyshape_opacity := decimal (Decimal.D0 Decimal.Nil) (Decimal.D6 Decimal.Nil);
     gedge_data_type := rel_type relationship;
     gedge_data_properties := default ∅ (rel_properties relationship) |}.

Definition transformCypherToGraphin (nodes : list Neo4jNode)
    (relationships : list Neo4jRelationship) : GraphinData :=
  {| gnodes := map createGraphinNode nodes;
     gedges := map createGraphinEdge relationships |}.

(** [graphData] of the component [QueryGraph]: nothing without a query,
    else the transformed pattern of its text; neither function throws, so
    the [catch] is never taken. *)
Definition graphData (query : option string) : GraphinData :=
  match query with
  | None => {| gnodes := []; gedges := [] |}
  | Some value =>
      let pattern := parseCypherQuery value in
      transformCypherToGraphin (nodes pattern) (relationships pattern)
  end.

End Graphin.

(** ** The display helpers for entity identifiers and values *)

Module EntityFormat.
Import JsString Regex Js.

(** The first match of a regular expression without the global flag,
    looked for from the index [i] on: [s.match(re)], [None] for [null]. *)
Fixpoint searchFrom (r : regex) (i : nat) (s : string) : option (nat * captures) :=
  match matchAt r i s with
  | Some found => Some found
  | None =>
      match s with
      | String _ s' => searchFrom r (S i) s'
      | EmptyString => None
      end
  end.

Definition search (r : regex) (s : string) : option (nat * captures) :=
  searchFrom r 0 s.

(** [[a-zA-Z0-9_-]] *)
Definition wordOrDash (c : ascii) : bool := word c || Ascii.eqb c "-".

(** [/^[a-zA-Z0-9_-]+$/] *)
Definition entityIdPattern : regex := seqs [Bol; Plus wordOrDash; Eol].

(** [key in v] for a [v] that is an object: of the values modelled only a
    plain object has own properties with such names. *)
Fixpoint hasKey (props : list (string * JsValue)) (key : string) : bool :=
  match props with
  | (k, _) :: props' => String.eqb k key || hasKey props' key
  | [] => false
  end.

Definition hasProp (v : JsValue) (key : string) : bool :=
  match v with
  | JsObject props => hasKey props key
  | _ => false
  end.

(** [isNeo4jEntity(value)] *)
Definition isNeo4jEntity (value : JsValue) : bool :=
  match value with
  | JsStr s => match search entityIdPattern s with Some _ => true | None => false end
  | JsArray _ | JsObject _ =>
      hasProp value "_labels" || hasProp value "_id" || hasProp value "_type"
  | _ => false
  end.

(** A string as the list of its code units of 16 bits, for the
    functions whose outcome depends on the code units above 255. *)
Definition unitsOf (s : string) : list N :=
  N_of_ascii <$> list_ascii_of_string s.

(** [s.startsWith(p)] on code units. *)
Fixpoint startsWithUnits (s p : list N) : bool :=
  match p, s with
  | [], _ => true
  | a :: p', b :: s' => N.eqb a b && startsWithUnits s' p'
  | _ :: _, [] => false
  end.

(** The code units that [encodeURIComponent] leaves as they are:
    letters, digits and [- _ . ! ~ * ' ( )]. *)
Definition uriUnreserved (u : N) : bool :=
  (u <? 128)%N
  && (word (ascii_of_N u)
      || existsb (Ascii.eqb (ascii_of_N u))
           ["-"; "."; "!"; "~"; "*"; "'"; "("; ")"]%char).

(** The code units D800 to DBFF and DC00 to DFFF. *)
Definition isLeadSurrogate (u : N) : bool := (55296 <=? u)%N && (u <=? 56319)%N.
Definition isTrailSurrogate (u : N) : bool := (56320 <=? u)%N && (u <=? 57343)%N.

(** The code point of a pair of surrogates. *)
Definition pairCodePoint (lead trail : N) : N :=
  ((lead - 55296) * 1024 + (trail - 56320) + 65536)%N.

(** The bytes of the UTF-8 form of a code point. *)
Definition utf8 (cp : N) : list N :=
  if (cp <? 128)%N then [cp]
  else if (cp <? 2048)%N then [192 + cp / 64; 128 + cp mod 64]%N
  else if (cp <? 65536)%N then
    [224 + cp / 4096; 128 + (cp / 64) mod 64; 128 + cp mod 64]%N
  else
    [240 + cp / 262144; 128 + (cp / 4096) mod 64; 128 + (cp / 64) mod 64;
     128 + cp mod 64]%N.

Definition upperHexDigit (n : N) : N :=
  if (n <? 10)%N then (48 + n)%N else (55 + n)%N.

(** The escape of one byte: a percent sign and two digits in upper
    case. *)
Definition percentByte (byte : N) : list N :=
  [37%N; upperHexDigit (byte / 16); upperHexDigit (byte mod 16)].

(** The escapes of the bytes of a code point. *)
Definition escape (cp : N) : list N :=
  concat (percentByte <$> utf8 cp).

(** The [URIError] of a surrogate without its pair; the text of its
    message is the engine's own. *)
Definition uriError : Thrown := ThrownError "URI malformed".

Definition andThen (o : Outcome (list N)) (f : list N -> list N) : Outcome (list N) :=
  match o with
  | Returned encoded => Returned (f encoded)
  | Threw e => Threw e
  end.

(** [encodeURIComponent(s)]: an unreserved code unit stays, any other
    code point is escaped byte by byte, and a surrogate without its pair
    makes the call throw. *)
Fixpoint encodeURIComponent (units : list N) : Outcome (list N) :=
  match units with
  | [] => Returned []
  | u :: rest =>
      if uriUnreserved u then andThen (encodeURIComponent rest) (cons u)
      else if isLeadSurrogate u then
        match rest with
        | v :: rest' =>
            if isTrailSurrogate v
            then andThen (encodeURIComponent rest') (app (escape (pairCodePoint u v)))
            else Threw uriError
        | [] => Threw uriError
        end
      else if isTrailSurrogate u then Threw uriError
      else andThen (encodeURIComponent rest) (app (escape u))
  end.

(** [formatURI(entityId)] *)
Definition formatURI (entityId : list N) : list N :=
  match entityId with
  | [] => []
  | _ :: _ => entityId
  end.

(** [getHrefFromURI(entityId)] *)
Definition getHrefFromURI (entityId : list N) : Outcome (list N) :=
  match entityId with
  | [] => Returned (unitsOf "#")
  | _ :: _ =>
      if startsWithUnits entityId (unitsOf "http://")
         || startsWithUnits entityId (unitsOf "https://")
      then Returned entityId
      else andThen (encodeURIComponent entityId) (app (unitsOf "#/entity/"))
  end.

End EntityFormat.

(** ** [redux/queryHistorySlice] *)

Module QueryHistory.
Import JsString Js RunCypherQuery.









End QueryHistory.

(** ** Vocabulary of the further statements *)

Module Terms.
Import JsString Regex Js Async RunCypherQuery QueryBuilding.

(** A call of [sendMessages] with one message of the [system] role. *)
Definition systemTurn (call : list ChatMessage) : Prop :=
  exists message, call = [message] /\ role message = system.

(** The runs that a search adds to the history: its one query when a
    driver is in place, none otherwise. *)
Definition runsOf (w : World) (run : Run) : list Run :=
  if isConnected w then [run] else [].

(** A computation that throws only what the transport threw on the last
    call made to it. *)
Definition throwsOnlyTransport (llm : list (list ChatMessage) -> Outcome ChatMessage)
    {A : Type} (m : M A) : Prop :=
  forall w e w', m w = (Threw e, w') -> llm (sent w') = Threw e.

(** A computation that only adds system turns to the calls of the
    transport. *)
Definition speaksSystem {A : Type} (m : M A) : Prop :=
  forall w, exists calls,
    sent (m w).2 = sent w ++ calls /\ Forall systemTurn calls.

(** A transport that answers its first calls with [replies] and fails
    from then on. *)
Definition failingAfter (replies : list string) (calls : list (list ChatMessage))
    : Outcome ChatMessage :=
  match replies !! (length calls - 1) with
  | Some reply => Returned {| content := reply; role := assistant;
                              stage := "Query Building" |}
  | None => Threw (ThrownError "Network Error")
  end.

(** The sixteen hexadecimal digits in lower case. *)
Definition hexDigitChar (c : ascii) : bool :=
  inRange 48 57 c || inRange 97 102 c.




(** The last code unit of a text. *)
Fixpoint lastChar (s : string) : option ascii :=
  match s with
  | EmptyString => None
  | String c s' =>
      match lastChar s' with
      | Some d => Some d
      | None => Some c
      end
  end.

(** The length of the longest run of code units of a class at the head
    of a text. *)
Fixpoint runLength (p : ascii -> bool) (s : string) : nat :=
  match s with
  | String c s' => if p c then S (runLength p s') else 0
  | EmptyString => 0
  end.

(** A text with every run of white space turned into one blank; [inRun]
    tells that the code unit before the text was white space. *)
Fixpoint collapseFrom (inRun : bool) (s : string) : string :=
  match s with
  | String c s' =>
      if isWhiteSpace c
      then if inRun then collapseFrom true s'
           else String " " (collapseFrom true s')
      else String c (collapseFrom false s')
  | EmptyString => EmptyString
  end.

(** A text up to its first two slashes in a row. *)
Fixpoint beforeComment (s : string) : string :=
  match s with
  | String c s' =>
      if startsWith s "//" then EmptyString else String c (beforeComment s')
  | EmptyString => EmptyString
  end.





(** A text made of two hexadecimal digits. *)
Definition twoHexDigits (s : string) : bool :=
  match s with
  | String a (String b EmptyString) => hexDigitChar a && hexDigitChar b
  | _ => false
  end.

(** Every node variable registered in the map is in the array, once. *)
Definition nodesDistinct (st : ParseCypherQuery.ParseState) : Prop :=
  NoDup (ParseCypherQuery.node_variable <$> ParseCypherQuery.st_nodes st)
  /\ forall v, v ∈ ParseCypherQuery.node_variable <$> ParseCypherQuery.st_nodes st ->
       ParseCypherQuery.hasNode st v = true.

(** A node and a relationship as the two scans build them: no empty
    label, no empty type, no empty variable of a relationship, and
    properties that are absent rather than empty. *)
Definition tidyNode (node : ParseCypherQuery.Neo4jNode) : Prop :=
  Forall (fun label => label <> EmptyString) (ParseCypherQuery.node_labels node)
  /\ ParseCypherQuery.node_properties node <> Some ∅.

Definition tidyRelationship (r : ParseCypherQuery.Neo4jRelationship) : Prop :=
  ParseCypherQuery.rel_type r <> EmptyString
  /\ ParseCypherQuery.rel_variable r <> Some EmptyString
  /\ ParseCypherQuery.rel_properties r <> Some ∅.

End Terms.

(** * Properties *)

(** ** Strings *)

Section StringFacts.
Import JsString Vocabulary.

Lemma prefix_length (p s : string) :
  String.prefix p s = true -> String.length p <= String.length s.
Proof.
  revert s. induction p as [|c p IH]; intros [|d s]; simpl; try lia; try discriminate.
  destruct (ascii_dec c d); [|discriminate].
  intros H. apply IH in H. lia.
Qed.

Lemma prefix_nil_l (s : string) : String.prefix EmptyString s = true.
Proof. by destruct s. Qed.

Lemma length_take (n : nat) (s : string) :
  String.length (take n s) = Nat.min n (String.length s).
Proof.
  revert s. induction n as [|n IH]; intros [|c s]; simpl; auto.
Qed.

Lemma length_drop (n : nat) (s : string) :
  String.length (drop n s) = String.length s - n.
Proof.
  revert s. induction n as [|n IH]; intros [|c s]; simpl; auto.
Qed.

Lemma append_cons (c : ascii) (s t : string) :
  String c s +:+ t = String c (s +:+ t).
Proof. reflexivity. Qed.

Lemma append_nil_l (t : string) : EmptyString +:+ t = t.
Proof. reflexivity. Qed.

Lemma take_drop (n : nat) (s : string) : take n s +:+ drop n s = s.
Proof.
  revert s. induction n as [|n IH]; intros [|c s]; simpl; auto.
  rewrite append_cons. f_equal. apply IH.
Qed.

Lemma length_append (s t : string) :
  String.length (s +:+ t) = String.length s + String.length t.
Proof.
  induction s as [|c s IH]; [done|].
  rewrite append_cons. simpl. by rewrite IH.
Qed.

Lemma indexOf_unfold (s sep : string) :
  indexOf s sep =
    if String.prefix sep s then Some 0
    else match s with
         | String _ s' => S <$> indexOf s' sep
         | EmptyString => None
         end.
Proof. by destruct s. Qed.

Lemma indexOf_bound (s sep : string) (i : nat) :
  indexOf s sep = Some i -> i + String.length sep <= String.length s.
Proof.
  revert i. induction s as [|c s IH]; intros i; rewrite indexOf_unfold;
    destruct (String.prefix sep _) eqn:Hp.
  - intros [= <-]. by apply prefix_length in Hp.
  - discriminate.
  - intros [= <-]. by apply prefix_length in Hp.
  - destruct (indexOf s sep) as [j|]; [|discriminate].
    intros [= <-]. specialize (IH j eq_refl). simpl. lia.
Qed.

Lemma indexOf_prefix (s sep : string) (i : nat) :
  indexOf s sep = Some i -> String.prefix sep (drop i s) = true.
Proof.
  revert i. induction s as [|c s IH]; intros i; rewrite indexOf_unfold;
    destruct (String.prefix sep _) eqn:Hp.
  - by intros [= <-].
  - discriminate.
  - by intros [= <-].
  - destruct (indexOf s sep) as [j|]; [|discriminate].
    intros [= <-]. by apply IH.
Qed.

(** No occurrence starts before the index that [indexOf] gives. *)
Lemma indexOf_first (s sep : string) (i j : nat) :
  indexOf s sep = Some i -> j < i -> String.prefix sep (drop j s) = false.
Proof.
  revert i j. induction s as [|c s IH]; intros i j; rewrite indexOf_unfold;
    destruct (String.prefix sep _) eqn:Hp.
  - intros [= <-]. lia.
  - discriminate.
  - intros [= <-]. lia.
  - destruct (indexOf s sep) as [k|]; [|discriminate].
    intros [= <-] Hj. destruct j as [|j]; [done|].
    apply (IH k); [done|lia].
Qed.

Lemma indexOf_none (s sep : string) (j : nat) :
  indexOf s sep = None -> String.prefix sep (drop j s) = false.
Proof.
  revert j. induction s as [|c s IH]; intros j; rewrite indexOf_unfold;
    destruct (String.prefix sep _) eqn:Hp; try discriminate.
  - intros _. by destruct j.
  - destruct (indexOf s sep) as [k|] eqn:Hk; [discriminate|].
    intros _. destruct j as [|j]; [done|]. by apply IH.
Qed.

Lemma toUpperCase_length (s : string) :
  String.length (toUpperCase s) = String.length s.
Proof. induction s as [|c s IH]; simpl; auto. Qed.

Lemma includes_length (s sep : string) :
  includes s sep = true -> String.length sep <= String.length s.
Proof.
  unfold includes. destruct (indexOf s sep) as [i|] eqn:Hi; [|discriminate].
  intros _. apply indexOf_bound in Hi. lia.
Qed.

Lemma splitRounds_head (n : nat) (s sep : string) :
  0 < String.length sep -> String.length s <= n ->
  head (splitRounds n s sep) = Some (upToNext s sep).
Proof.
  intros Hsep Hn. unfold upToNext. destruct n as [|n]; simpl.
  - destruct (indexOf s sep) as [j|] eqn:Hj; [|done].
    apply indexOf_bound in Hj. lia.
  - unfold breakAt. by destruct (indexOf s sep).
Qed.

(** [s.split(sep)[1]] when [sep] occurs in [s]. *)
Lemma split_second (s sep : string) (i : nat) :
  0 < String.length sep -> indexOf s sep = Some i ->
  split s sep !! 1 = Some (upToNext (drop (i + String.length sep) s) sep).
Proof.
  intros Hsep Hi. unfold split.
  pose proof (indexOf_bound _ _ _ Hi) as Hb.
  destruct (String.length s) as [|n] eqn:Hlen; [lia|].
  simpl. unfold breakAt. rewrite Hi. simpl.
  rewrite <- head_lookup. apply splitRounds_head; [done|].
  rewrite length_drop. lia.
Qed.

(** Rounds beyond the length of the text change nothing. *)
Lemma split_rounds_enough (n k : nat) (s sep : string) :
  0 < String.length sep -> String.length s <= n -> String.length s <= k ->
  splitRounds n s sep = splitRounds k s sep.
Proof.
  intros Hsep. revert k s. induction n as [|n IH]; intros k s Hn Hk.
  - destruct k as [|k]; simpl; [done|].
    unfold breakAt. destruct (indexOf s sep) as [j|] eqn:Hj; [|done].
    apply indexOf_bound in Hj. lia.
  - simpl. unfold breakAt.
    destruct (indexOf s sep) as [j|] eqn:Hj.
    + pose proof (indexOf_bound _ _ _ Hj) as Hb.
      destruct k as [|k]; [lia|]. simpl. unfold breakAt. rewrite Hj.
      f_equal. apply IH; rewrite length_drop; lia.
    + destruct k as [|k]; simpl; [done|]. unfold breakAt. by rewrite Hj.
Qed.

End StringFacts.

(** ** The executor *)

Section ExecutorFacts.
Import JsString Js Async RunCypherQuery.

Variable neo4j : list Run -> Outcome QueryResult.

Lemma runCypherQuery_without_driver (query : string) (params : JsValue) (w : World) :
driver w = None ->
runCypherQuery neo4j query params w = (Threw (ThrownError "Not connected to Neo4j"), w).
Proof.
intros Hd. unfold runCypherQuery, isConnected. by rewrite Hd.
Qed.

(** C8. Whatever the query text and the parameters, [runCypherQuery]
  called while [neo4jConnection] has no driver throws the error
  [Not connected to Neo4j] and nothing else, and leaves the world as it
  was: no query reaches the server. *)
Theorem runCypherQuery_not_connected (query : string) (params : JsValue) (w : World) :
driver w = None ->
runCypherQuery neo4j query params w
  = (Threw (ThrownError "Not connected to Neo4j"), w)
/\ issued (runCypherQuery neo4j query params w).2 = issued w.
Proof.
intros Hd. by rewrite (runCypherQuery_without_driver query params w Hd).
Qed.

End ExecutorFacts.

(** A world without a connection and a server that would answer. *)
Lemma runCypherQuery_not_connected_witness :
  let w := Scenario.disconnectedWorld in
  RunCypherQuery.runCypherQuery Scenario.emptyServer "RETURN 1" (Js.JsObject []) w
    = (Js.Threw (Js.ThrownError "Not connected to Neo4j"), w)
  /\ Async.issued
       (RunCypherQuery.runCypherQuery Scenario.emptyServer "RETURN 1" (Js.JsObject []) w).2
     = Async.issued w.
Proof.
  intros w.
  exact (runCypherQuery_not_connected Scenario.emptyServer "RETURN 1" (Js.JsObject []) w
           eq_refl).
Defined.

(** With a connection the same call reaches the server. *)
Example runCypherQuery_connected_example :
  RunCypherQuery.runCypherQuery Scenario.emptyServer "RETURN 1" (Js.JsObject [])
    Scenario.connectedWorld
  = (Js.Returned (RunCypherQuery.Build_CypherResult [] "RETURN 1" (Js.JsObject []) (Js.JsObject [])),
     Vocabulary.afterRun Scenario.connectedWorld ("RETURN 1", Js.JsObject [])).
Proof. reflexivity. Qed.

(** ** The classifier *)

Section ClassifierFacts.
Import JsString Js Async RunCypherQuery QueryBuilding Vocabulary.

Lemma includes_unfold (s sep : string) :
  includes s sep =
    String.prefix sep s
    || match s with
       | String _ s' => includes s' sep
       | EmptyString => false
       end.
Proof.
  unfold includes. rewrite indexOf_unfold.
  destruct (String.prefix sep s); [done|].
  destruct s as [|c s]; [done|]. simpl. by destruct (indexOf s sep).
Qed.

Lemma prefix_cons (d c : ascii) (m s : string) :
  String.prefix (String d m) (String c s)
    = bool_decide (d = c) && String.prefix m s.
Proof.
  simpl. destruct (ascii_dec d c);
    [by rewrite bool_decide_true | by rewrite bool_decide_false].
Qed.

Lemma includes_trimStart (s sep : string) :
  startsBlack sep = true -> isEmpty sep = false ->
  includes (trimStart s) sep = includes s sep.
Proof.
  intros Hb Hne. destruct sep as [|d sep]; [done|]. simpl in Hb.
  induction s as [|c s IH]; [done|]. simpl.
  destruct (isWhiteSpace c) eqn:Hc; [|done].
  rewrite IH. rewrite (includes_unfold (String c s)), prefix_cons.
  rewrite bool_decide_false; [done|]. intros ->. by rewrite Hc in Hb.
Qed.

Lemma endsBlack_tail (d : ascii) (m : string) :
  endsBlack (String d m) = true -> isEmpty m = false -> endsBlack m = true.
Proof. by destruct m. Qed.

Lemma prefix_trimEnd (m s : string) :
  endsBlack m = true -> String.prefix m (trimEnd s) = String.prefix m s.
Proof.
  revert m. induction s as [|c s IH]; intros m Hm; [done|].
  destruct m as [|d m]; [by rewrite !prefix_nil_l|].
  simpl trimEnd.
  assert (Htail : String.prefix m (trimEnd s) = String.prefix m s).
  { destruct m as [|e m]; [by rewrite !prefix_nil_l|].
    apply IH. by apply (endsBlack_tail d). }
  destruct (isWhiteSpace c && isEmpty (trimEnd s)) eqn:Hcase.
  - apply andb_true_iff in Hcase as [Hc He].
    rewrite prefix_cons. destruct (trimEnd s) as [|e t] eqn:Ht; [|done].
    case_bool_decide as Hdc; [|done]. subst d.
    destruct m as [|e m].
    + simpl in Hm. by rewrite Hc in Hm.
    + by rewrite <- Htail.
  - by rewrite !prefix_cons, Htail.
Qed.

Lemma includes_trimEnd (s sep : string) :
  endsBlack sep = true -> includes (trimEnd s) sep = includes s sep.
Proof.
  intros Hb. induction s as [|c s IH]; [done|].
  rewrite (includes_unfold (String c s)), <- IH.
  rewrite <- (prefix_trimEnd sep (String c s)) by done.
  rewrite (includes_unfold (trimEnd (String c s))). simpl trimEnd.
  destruct (isWhiteSpace c && isEmpty (trimEnd s)) eqn:Hcase; [|done].
  apply andb_true_iff in Hcase as [_ He].
  destruct (trimEnd s); [|done].
  rewrite (includes_unfold EmptyString).
  by destruct (String.prefix sep EmptyString).
Qed.

(** Trimming neither hides nor creates an occurrence of a marker that
    starts and ends with a code unit that is not white space. *)
Lemma includes_trim (s sep : string) :
  startsBlack sep = true -> endsBlack sep = true -> isEmpty sep = false ->
  includes (trim s) sep = includes s sep.
Proof.
  intros Hs He Hne. unfold trim.
  by rewrite includes_trimEnd, includes_trimStart.
Qed.

Lemma not_stop_of_length (t : string) :
  4 < String.length t -> String.eqb (toUpperCase t) "STOP" = false.
Proof.
  intros Hlen. apply String.eqb_neq. intros Heq.
  pose proof (toUpperCase_length t) as Hl. rewrite Heq in Hl. simpl in Hl. lia.
Qed.

Lemma not_stop_of_includes (t sep : string) :
  4 < String.length sep -> includes t sep = true ->
  String.eqb (toUpperCase t) "STOP" = false.
Proof.
  intros Hsep Hin. apply not_stop_of_length.
  apply includes_length in Hin. lia.
Qed.

Lemma includes_indexOf (t sep : string) :
  includes t sep = true -> exists i, indexOf t sep = Some i.
Proof. unfold includes. destruct (indexOf t sep) as [i|]; [eauto|done]. Qed.

Lemma secondTrimmed_split (t sep : string) (i : nat) :
  0 < String.length sep -> indexOf t sep = Some i ->
  secondTrimmed (split t sep)
    = Returned (trim (upToNext (drop (i + String.length sep) t) sep)).
Proof.
  intros Hsep Hi. unfold secondTrimmed. by rewrite (split_second _ _ i).
Qed.

(** C5. The conditions are tried in a fixed order on the trimmed reply:
    a reply that contains [Entity Search:] is an entity search, whether
    or not it also contains [Properties Search:]; one that contains
    [Properties Search:] and not [Entity Search:] is a properties search;
    only a reply that starts with [Tail Search:] can be a related-entities
    search, so a [Tail Search:] that comes after a preamble never is.
    Containment can be read on the reply as received or on the trimmed
    reply. *)
Theorem classify_priority (text : string) :
  (includes text ENTITY_SEARCH_PREFIX = includes (trim text) ENTITY_SEARCH_PREFIX
   /\ includes text PROPERTIES_SEARCH_PREFIX = includes (trim text) PROPERTIES_SEARCH_PREFIX)
  /\ (includes text ENTITY_SEARCH_PREFIX = true ->
      exists searchTerm, classify text = Returned (EntitySearch searchTerm))
  /\ (includes text ENTITY_SEARCH_PREFIX = false ->
      includes text PROPERTIES_SEARCH_PREFIX = true ->
      exists entityId, classify text = Returned (PropertiesSearch entityId))
  /\ (includes text ENTITY_SEARCH_PREFIX = false ->
      includes text PROPERTIES_SEARCH_PREFIX = false ->
      startsWith (trim text) TAIL_SEARCH_PREFIX = true ->
      exists payload, classify text = Returned (RelatedEntitiesSearch payload))
  /\ (startsWith (trim text) TAIL_SEARCH_PREFIX = false ->
      forall payload, classify text <> Returned (RelatedEntitiesSearch payload)).
Proof.
  assert (HE : includes text ENTITY_SEARCH_PREFIX = includes (trim text) ENTITY_SEARCH_PREFIX)
    by (symmetry; by apply includes_trim).
  assert (HP : includes text PROPERTIES_SEARCH_PREFIX = includes (trim text) PROPERTIES_SEARCH_PREFIX)
    by (symmetry; by apply includes_trim).
  split; [done|]. rewrite HE, HP. unfold classify.
  set (t := trim text). repeat split.
  - intros Hin. rewrite (not_stop_of_includes t ENTITY_SEARCH_PREFIX), Hin;
      [|simpl; lia|done].
    destruct (includes_indexOf _ _ Hin) as [i Hi].
    rewrite (secondTrimmed_split _ _ i); [|simpl; lia|done]. simpl. eauto.
  - intros HnE Hin. rewrite (not_stop_of_includes t PROPERTIES_SEARCH_PREFIX), HnE, Hin;
      [|simpl; lia|done].
    destruct (includes_indexOf _ _ Hin) as [i Hi].
    rewrite (secondTrimmed_split _ _ i); [|simpl; lia|done]. simpl. eauto.
  - intros HnE HnP Hst. rewrite not_stop_of_length, HnE, HnP, Hst; [eauto|].
    apply prefix_length in Hst. simpl in Hst. lia.
  - intros Hst payload.
    destruct (String.eqb (toUpperCase t) "STOP"); [done|].
    destruct (includes t ENTITY_SEARCH_PREFIX).
    { by destruct (secondTrimmed _). }
    destruct (includes t PROPERTIES_SEARCH_PREFIX).
    { by destruct (secondTrimmed _). }
    by rewrite Hst.
Qed.

(** C7, amended. The payload of an entity search or of a properties
    search is the trimmed text between the first occurrence of the marker
    and its next occurrence, or the end of the reply when the marker does
    not occur again: what follows a second occurrence is dropped. *)
Theorem payload_up_to_next_marker (text : string) (i : nat) :
  (indexOf (trim text) ENTITY_SEARCH_PREFIX = Some i ->
   classify text
     = Returned (EntitySearch
         (trim (upToNext (drop (i + String.length ENTITY_SEARCH_PREFIX) (trim text))
                         ENTITY_SEARCH_PREFIX))))
  /\ (indexOf (trim text) ENTITY_SEARCH_PREFIX = None ->
      indexOf (trim text) PROPERTIES_SEARCH_PREFIX = Some i ->
      classify text
        = Returned (PropertiesSearch
            (trim (upToNext (drop (i + String.length PROPERTIES_SEARCH_PREFIX) (trim text))
                            PROPERTIES_SEARCH_PREFIX)))).
Proof.
  unfold classify. set (t := trim text). split.
  - intros Hi.
    assert (Hin : includes t ENTITY_SEARCH_PREFIX = true) by (unfold includes; by rewrite Hi).
    rewrite (not_stop_of_includes t ENTITY_SEARCH_PREFIX), Hin; [|simpl; lia|done].
    by rewrite (secondTrimmed_split _ _ i); [|simpl; lia|done].
  - intros HnE Hi.
    assert (Hin : includes t PROPERTIES_SEARCH_PREFIX = true) by (unfold includes; by rewrite Hi).
    assert (Hout : includes t ENTITY_SEARCH_PREFIX = false) by (unfold includes; by rewrite HnE).
    rewrite (not_stop_of_includes t PROPERTIES_SEARCH_PREFIX), Hout, Hin; [|simpl; lia|done].
    by rewrite (secondTrimmed_split _ _ i); [|simpl; lia|done].
Qed.

End ClassifierFacts.

(** C7 as the specification states it, refuted: with two occurrences of
    the marker the payload is not the whole text after the first one. *)
Lemma payload_whole_rest_refuted :
  ~ (forall (text : string) (i : nat),
       JsString.indexOf (JsString.trim text) QueryBuilding.ENTITY_SEARCH_PREFIX = Some i ->
       QueryBuilding.classify text
         = Js.Returned (QueryBuilding.EntitySearch
             (JsString.trim
                (JsString.drop (i + String.length QueryBuilding.ENTITY_SEARCH_PREFIX)
                               (JsString.trim text))))).
Proof.
  intros H. specialize (H "Entity Search: foo Entity Search: bar" 0 eq_refl).
  vm_compute in H. discriminate H.
Qed.

(** The order of the conditions on three replies: both markers, the
    properties marker first in the text; a tail search after a preamble; a
    tail search at the start. *)
Example classify_examples :
  QueryBuilding.classify "Properties Search: e1, or else Entity Search: Alice"
    = Js.Returned (QueryBuilding.EntitySearch "Alice")
  /\ QueryBuilding.classify "I will try Tail Search: e1, KNOWS"
     = Js.Returned QueryBuilding.Invalid
  /\ QueryBuilding.classify "  Tail Search: e1, KNOWS  "
     = Js.Returned (QueryBuilding.RelatedEntitiesSearch "e1, KNOWS")
  /\ QueryBuilding.classify "  Stop  " = Js.Returned QueryBuilding.Stop.
Proof. by vm_compute. Qed.

(** ** Splitting on a comma *)

Section CommaFacts.
Import JsString Vocabulary.

Lemma prefix_char (c : ascii) (s : string) :
  String.prefix (String c EmptyString) s
    = match s with
      | String d _ => bool_decide (c = d)
      | EmptyString => false
      end.
Proof.
  destruct s as [|d s]; [done|]. by rewrite prefix_cons, prefix_nil_l, andb_true_r.
Qed.

Lemma eqb_decide (c d : ascii) : Ascii.eqb c d = bool_decide (c = d).
Proof.
  destruct (Ascii.eqb_spec c d);
    [by rewrite bool_decide_true | by rewrite bool_decide_false].
Qed.

Lemma indexOf_char_none (c : ascii) (s : string) :
  indexOf s (String c EmptyString) = None -> countChar c s = 0.
Proof.
  induction s as [|d s IH]; [done|].
  rewrite indexOf_unfold, prefix_char. simpl. rewrite eqb_decide.
  case_bool_decide; [done|].
  destruct (indexOf s _); [done|]. intros _. by rewrite IH.
Qed.

Lemma indexOf_char_some (c : ascii) (s : string) (i : nat) :
  indexOf s (String c EmptyString) = Some i ->
  countChar c (take i s) = 0
  /\ s = take i s +:+ String c EmptyString +:+ drop (i + 1) s
  /\ countChar c s = S (countChar c (drop (i + 1) s)).
Proof.
  revert i. induction s as [|d s IH]; intros i; rewrite indexOf_unfold, prefix_char;
    [done|].
  case_bool_decide as Hcd.
  - intros [= <-]. subst d. simpl. by rewrite eqb_decide, bool_decide_true.
  - destruct (indexOf s _) as [j|]; [|done]. intros [= <-].
    destruct (IH j eq_refl) as (H1 & H2 & H3). simpl.
    rewrite eqb_decide, bool_decide_false by done. simpl.
    rewrite append_cons. by rewrite <- H2.
Qed.

Lemma countChar_indexOf (c : ascii) (s : string) :
  countChar c s = 0 -> indexOf s (String c EmptyString) = None.
Proof.
  intros Hc. destruct (indexOf s _) as [i|] eqn:Hi; [|done].
  apply indexOf_char_some in Hi as (_ & _ & H). lia.
Qed.

(** The pieces of a split on a comma are one more than the commas. *)
Lemma length_splitRounds_comma (n : nat) (s : string) :
  String.length s <= n ->
  length (splitRounds n s ",") = S (countChar "," s).
Proof.
  revert s. induction n as [|n IH]; intros s Hn.
  - destruct s; [done|simpl in Hn; lia].
  - simpl. unfold breakAt. destruct (indexOf s ",") as [i|] eqn:Hi.
    + pose proof (indexOf_bound _ _ _ Hi) as Hb. simpl in Hb.
      apply indexOf_char_some in Hi as (_ & _ & ->). simpl.
      rewrite IH; [done|]. rewrite length_drop. lia.
    + by rewrite (indexOf_char_none _ _ Hi).
Qed.

Lemma length_split_comma (s : string) :
  length (split s ",") = S (countChar "," s).
Proof. by apply length_splitRounds_comma. Qed.

(** With exactly one comma the two pieces are the text before it and the
    text after it. *)
Lemma split_one_comma (s : string) :
  countChar "," s = 1 ->
  exists a b, s = a +:+ "," +:+ b /\ split s "," = [a; b].
Proof.
  intros Hc. destruct (indexOf s ",") as [i|] eqn:Hi.
  - pose proof (indexOf_bound _ _ _ Hi) as Hb. simpl in Hb.
    pose proof (indexOf_char_some _ _ _ Hi) as (_ & Hs & Hcount).
    exists (take i s), (drop (i + 1) s). split; [done|].
    unfold split. destruct (String.length s) as [|n] eqn:Hlen; [lia|].
    simpl. unfold breakAt. rewrite Hi. simpl. f_equal.
    assert (Hrest : indexOf (drop (i + 1) s) "," = None)
      by (apply countChar_indexOf; lia).
    destruct n as [|n]; simpl; [done|]. unfold breakAt. by rewrite Hrest.
  - apply indexOf_char_none in Hi. lia.
Qed.

End CommaFacts.

(** ** The search handlers and the loop *)

Section WorkflowFacts.
Import JsString Js Async RunCypherQuery QueryBuilding Vocabulary.

Variable llm : list (list ChatMessage) -> Outcome ChatMessage.
Variable neo4j : list Run -> Outcome QueryResult.

Lemma sendMessages_eq (messages : list ChatMessage) (w : World) :
  sendMessages llm messages w = (llm (sent w ++ [messages]), afterSend w messages).
Proof. reflexivity. Qed.

Lemma runCypherQuery_connected (query : string) (params : JsValue) (w : World) :
  is_Some (driver w) ->
  exists o, runCypherQuery neo4j query params w = (o, afterRun w (query, params)).
Proof.
  intros [d Hd].
  unfold runCypherQuery, isConnected, tryCatch, bind, runQuery, afterRun.
  rewrite Hd. simpl. destruct (neo4j _) as [r|e]; simpl; eexists; reflexivity.
Qed.

Lemma runCypherQuery_cases (query : string) (params : JsValue) (w : World) :
  exists o w', runCypherQuery neo4j query params w = (o, w')
               /\ (w' = w \/ w' = afterRun w (query, params)).
Proof.
  destruct (driver w) as [d|] eqn:Hd.
  - destruct (runCypherQuery_connected query params w) as [o Ho]; [by rewrite Hd|].
    eauto 6.
  - exists (Threw (ThrownError "Not connected to Neo4j")), w.
    split; [|by left]. by apply runCypherQuery_without_driver.
Qed.

Lemma idle_sendMessages (messages : list ChatMessage) :
  serverIdle (sendMessages llm messages).
Proof. intros w o w'. rewrite sendMessages_eq. by intros [= <- <-]. Qed.

Lemma idle_lift {A : Type} (o : Outcome A) : serverIdle (lift o).
Proof. intros w o' w'. unfold lift. by intros [= <- <-]. Qed.

Lemma idle_bind {A B : Type} (m : M A) (f : A -> M B) :
  serverIdle m -> (forall a, serverIdle (f a)) -> serverIdle (bind m f).
Proof.
  intros Hm Hf w o w'. unfold bind. destruct (m w) as [[a|e] w1] eqn:Hmw.
  - intros Hfa. destruct (Hm _ _ _ Hmw) as [H1 H2].
    destruct (Hf a _ _ _ Hfa) as [H3 H4]. split; congruence.
  - intros [= <- <-]. by apply (Hm _ _ _ Hmw).
Qed.

Hypothesis transport_answers : forall calls, isReturned (llm calls).

Lemma turn_sendMessages (messages : list ChatMessage) :
  oneTurn llm (sendMessages llm messages).
Proof.
  intros w. rewrite sendMessages_eq.
  pose proof (transport_answers (sent w ++ [messages])) as Hr.
  destruct (llm _) as [reply|e] eqn:Hl; [|done]. eauto.
Qed.

Lemma turn_or_throw (m : M ChatMessage) : oneTurn llm m -> oneTurnOrThrow llm m.
Proof. intros Hm w. left. apply Hm. Qed.

Lemma turn_or_throw_lift {A : Type} (o : Outcome A) (k : A -> M ChatMessage) :
  (forall a, oneTurnOrThrow llm (k a)) -> oneTurnOrThrow llm (bind (lift o) k).
Proof.
  intros Hk w. unfold bind, lift. destruct o as [a|e]; [apply Hk|].
  right. eauto.
Qed.

Lemma searchTurn_of_turn (m : M ChatMessage) : oneTurn llm m -> searchTurn llm m.
Proof.
  intros Hm w. destruct (Hm w) as (reply & messages & H1 & H2).
  exists reply, messages, w. auto.
Qed.

(** The shape of the three searches: a query, then a reply built from
    its result; any throw is answered by one message. *)
Lemma turn_search (query : string) (params : JsValue)
    (body : CypherResult -> M ChatMessage) (onError : Thrown -> list ChatMessage) :
  (forall result, oneTurnOrThrow llm (body result)) ->
  searchTurn llm (tryCatch (bind (runCypherQuery neo4j query params) body)
                       (fun error => sendMessages llm (onError error))).
Proof.
  intros Hbody w.
  destruct (runCypherQuery_cases query params w) as (o & w1 & Hrun & Hw1).
  assert (Hsent : sent w1 = sent w) by (by destruct Hw1 as [-> | ->]).
  assert (Hw1' : w1 = w \/ exists run, w1 = afterRun w run)
    by (destruct Hw1; eauto).
  unfold tryCatch, bind. rewrite Hrun. destruct o as [result|e].
  - destruct (Hbody result w1) as [(reply & messages & -> & Hl)|(e & ->)].
    + exists reply, messages, w1. by rewrite <- Hsent.
    + destruct (turn_sendMessages (onError e) w1) as (reply & messages & -> & Hl).
      exists reply, messages, w1. by rewrite <- Hsent.
  - destruct (turn_sendMessages (onError e) w1) as (reply & messages & -> & Hl).
    exists reply, messages, w1. by rewrite <- Hsent.
Qed.

Lemma turn_handleEntitySearch (searchTerm : string) :
  searchTurn llm (handleEntitySearch llm neo4j searchTerm).
Proof.
  unfold handleEntitySearch. apply turn_search.
  intros result. destruct (Nat.eqb _ _).
  - apply turn_or_throw, turn_sendMessages.
  - apply turn_or_throw_lift. intros pieces. apply turn_or_throw, turn_sendMessages.
Qed.

Lemma turn_handlePropertiesSearch (entityId : string) :
  searchTurn llm (handlePropertiesSearch llm neo4j entityId).
Proof.
  unfold handlePropertiesSearch. apply turn_search.
  intros result. destruct (records result) as [|first rest].
  - apply turn_or_throw, turn_sendMessages.
  - apply turn_or_throw_lift. intros properties.
    apply turn_or_throw_lift. intros text.
    apply turn_or_throw, turn_sendMessages.
Qed.

Lemma turn_searchRelatedEntities (entityId relationshipType : string) :
  searchTurn llm (searchRelatedEntities llm neo4j entityId relationshipType).
Proof.
  unfold searchRelatedEntities. apply turn_search.
  intros result. destruct (Nat.eqb _ _).
  - apply turn_or_throw, turn_sendMessages.
  - apply turn_or_throw_lift. intros pieces. apply turn_or_throw, turn_sendMessages.
Qed.

Lemma turn_handleRelatedEntitiesSearch (text : string) :
  searchTurn llm (handleRelatedEntitiesSearch llm neo4j text).
Proof.
  unfold handleRelatedEntitiesSearch.
  destruct (trim <$> split text ",") as [|a [|b [|c l]]];
    try (apply searchTurn_of_turn, turn_sendMessages).
  apply turn_searchRelatedEntities.
Qed.

Lemma classify_total (text : string) : exists action, classify text = Returned action.
Proof.
  unfold classify. set (t := trim text).
  destruct (String.eqb _ _); [eauto|].
  destruct (includes t ENTITY_SEARCH_PREFIX) eqn:HE.
  { destruct (includes_indexOf _ _ HE) as [i Hi].
    rewrite (secondTrimmed_split _ _ i); [simpl; eauto|simpl; lia|done]. }
  destruct (includes t PROPERTIES_SEARCH_PREFIX) eqn:HP.
  { destruct (includes_indexOf _ _ HP) as [i Hi].
    rewrite (secondTrimmed_split _ _ i); [simpl; eauto|simpl; lia|done]. }
  destruct (startsWith _ _); eauto.
Qed.

(** The loop returns, with a counter that grew by at most [budget], after
    at most one message and one query per pass. *)
Lemma queryBuildingLoop_bounded (budget : nat) :
  forall (n : nat) (llmResponse : ChatMessage) (w : World),
  exists n' last w',
    queryBuildingLoop llm neo4j budget n llmResponse w = (Returned (n', last), w')
    /\ n <= n' <= n + budget
    /\ length (sent w') <= length (sent w) + (n' - n)
    /\ length (issued w') <= length (issued w) + (n' - n).
Proof.
  induction budget as [|budget IH]; intros n llmResponse w.
  - exists n, llmResponse, w. simpl. unfold ret. repeat split; lia.
  - simpl. destruct (classify_total (content llmResponse)) as [action Ha].
    unfold bind at 1. unfold lift. rewrite Ha.
    assert (Hturn : forall handler : M ChatMessage,
              searchTurn llm handler ->
              exists n' last w',
                bind handler (fun r => queryBuildingLoop llm neo4j budget (S n) r) w
                  = (Returned (n', last), w')
                /\ n <= n' <= n + S budget
                /\ length (sent w') <= length (sent w) + (n' - n)
                /\ length (issued w') <= length (issued w) + (n' - n)).
    { intros handler Hh. destruct (Hh w) as (reply & messages & w1 & Hrun & _ & Hw1).
      unfold bind. rewrite Hrun.
      destruct (IH (S n) reply (afterSend w1 messages)) as (n' & last & w' & -> & Hn & Hs & Hi).
      exists n', last, w'. split; [done|]. split; [lia|].
      assert (length (sent w1) = length (sent w)
              /\ length (issued w1) <= length (issued w) + 1) as [Hs1 Hi1].
      { destruct Hw1 as [->|[run ->]]; simpl; [lia|]. rewrite length_app. simpl. lia. }
      simpl in Hs, Hi. rewrite length_app in Hs. simpl in Hs. lia. }
    destruct action as [|searchTerm|entityId|payload|].
    + exists (S n), llmResponse, w. unfold ret. repeat split; lia.
    + apply Hturn, turn_handleEntitySearch.
    + apply Hturn, turn_handlePropertiesSearch.
    + apply Hturn, turn_handleRelatedEntitiesSearch.
    + apply Hturn, searchTurn_of_turn, turn_sendMessages.
Qed.

(** C2. Whatever the replies of the model and whatever the server does,
    the workflow sends the initial message, runs the loop, whose counter
    stops at 20 at most and which makes at most one round trip and one
    query per pass, then sends the final query-construction message and
    returns the reply to it. *)
Theorem queryBuildingWorkflow_bounded (text : string) (w : World) :
  exists first w1 n last w2 reply,
    sendMessages llm [initialMessage] w = (Returned first, w1)
    /\ queryBuildingLoop llm neo4j QUERY_BUILDING_MAX_LOOPS 0 first w1
         = (Returned (n, last), w2)
    /\ n <= 20
    /\ length (sent w2) <= length (sent w1) + n
    /\ length (issued w2) <= length (issued w) + n
    /\ queryBuildingWorkflow llm neo4j text w
         = (Returned reply, afterSend w2 [finalMessage text])
    /\ llm (sent w2 ++ [[finalMessage text]]) = Returned reply.
Proof.
  destruct (turn_sendMessages [initialMessage] w) as (first & messages & Hsend & Hl).
  assert (messages = [initialMessage]) as ->.
  { rewrite sendMessages_eq in Hsend. injection Hsend as _ Hw.
    apply app_inv_head in Hw. by injection Hw. }
  destruct (queryBuildingLoop_bounded QUERY_BUILDING_MAX_LOOPS 0 first
              (afterSend w [initialMessage])) as (n & last & w2 & Hloop & Hn & Hs & Hi).
  destruct (turn_sendMessages [finalMessage text] w2) as (reply & messages & Hfin & Hl2).
  assert (messages = [finalMessage text]) as ->.
  { rewrite sendMessages_eq in Hfin. injection Hfin as _ Hw.
    apply app_inv_head in Hw. by injection Hw. }
  exists first, (afterSend w [initialMessage]), n, last, w2, reply.
  unfold QUERY_BUILDING_MAX_LOOPS in Hn. simpl in Hi.
  repeat split; try done; try lia.
  unfold queryBuildingWorkflow, bind. by rewrite Hsend, Hloop.
Qed.

Lemma handleRelatedEntitiesSearch_malformed (text : string) (w : World) :
  countChar "," text <> 1 ->
  handleRelatedEntitiesSearch llm neo4j text w
    = (llm (sent w ++ [[formatErrorMessage]]), afterSend w [formatErrorMessage]).
Proof.
  intros Hc. unfold handleRelatedEntitiesSearch.
  pose proof (length_split_comma text) as Hlen.
  rewrite <- (length_fmap trim) in Hlen.
  destruct (trim <$> split text ",") as [|a [|b [|c l]]]; try done.
  simpl in Hlen. lia.
Qed.

Lemma handleRelatedEntitiesSearch_two_fields (text : string) :
  countChar "," text = 1 ->
  exists a b,
    text = a +:+ "," +:+ b
    /\ handleRelatedEntitiesSearch llm neo4j text
         = searchRelatedEntities llm neo4j (trim a) (trim b).
Proof.
  intros Hc. destruct (split_one_comma text Hc) as (a & b & Htext & Hsplit).
  exists a, b. split; [done|]. unfold handleRelatedEntitiesSearch. by rewrite Hsplit.
Qed.

(** C6, amended. A payload with exactly one comma is split there into
    two trimmed fields, the entity identifier and the relationship type,
    either of which may be empty, and the search is made with them:
    [abc123, KNOWS] gives [abc123] and [KNOWS]. For any other number of
    commas, as in [abc123], the handler sends the format-error message as
    a system turn and hands back whatever the transport answers: no
    query is issued and nothing else is thrown. *)
Theorem handleRelatedEntitiesSearch_payload (text : string) (w : World) :
  (countChar "," text = 1 ->
   exists a b,
     text = a +:+ "," +:+ b
     /\ handleRelatedEntitiesSearch llm neo4j text
          = searchRelatedEntities llm neo4j (trim a) (trim b))
  /\ (countChar "," text <> 1 ->
      handleRelatedEntitiesSearch llm neo4j text w
        = (llm (sent w ++ [[formatErrorMessage]]), afterSend w [formatErrorMessage])
      /\ role formatErrorMessage = system
      /\ issued (handleRelatedEntitiesSearch llm neo4j text w).2 = issued w)
  /\ handleRelatedEntitiesSearch llm neo4j "abc123, KNOWS"
       = searchRelatedEntities llm neo4j "abc123" "KNOWS"
  /\ handleRelatedEntitiesSearch llm neo4j "abc123" w
       = (llm (sent w ++ [[formatErrorMessage]]), afterSend w [formatErrorMessage]).
Proof.
  split; [apply handleRelatedEntitiesSearch_two_fields|].
  split; [|split; [reflexivity|by apply handleRelatedEntitiesSearch_malformed]].
  intros Hc. rewrite (handleRelatedEntitiesSearch_malformed text w Hc). done.
Qed.

(** C1, amended. When the payload of a related-entities search has two
    fields and a connection exists, the query issued is the constant
    text with the trimmed second field spliced in as it is, whatever code
    units it is made of, and the trimmed first field is passed as the
    parameter [entityId]; it is the only query of the handler. *)
Theorem relationshipType_spliced_unchecked
    (text entityId relationshipType : string) (w : World) :
  is_Some (driver w) ->
  trim <$> split text "," = [entityId; relationshipType] ->
  issued (handleRelatedEntitiesSearch llm neo4j text w).2
    = issued w
      ++ [(relatedEntitiesQueryBefore +:+ relationshipType +:+ relatedEntitiesQueryAfter,
           JsObject [("entityId", JsStr entityId)])].
Proof.
  intros Hd Hsplit. unfold handleRelatedEntitiesSearch. rewrite Hsplit.
  unfold searchRelatedEntities, tryCatch. unfold bind at 1.
  destruct (runCypherQuery_connected (relatedEntitiesQuery relationshipType)
              (JsObject [("entityId", JsStr entityId)]) w Hd) as [o ->].
  set (w1 := afterRun w _).
  change (issued w ++ _) with (issued w1).
  destruct o as [result|e].
  - match goal with |- context [?body w1] =>
      assert (Hidle : serverIdle body);
      [|destruct (body w1) as [[reply|e] w2] eqn:Hbody]
    end.
    + destruct (Nat.eqb _ _); [apply idle_sendMessages|].
      apply idle_bind; [apply idle_lift|]. intros pieces. apply idle_sendMessages.
    + by destruct (Hidle _ _ _ Hbody).
    + destruct (Hidle _ _ _ Hbody) as [<- _].
      destruct (sendMessages _ _ w2) as [o3 w3] eqn:Hsend.
      by destruct (idle_sendMessages _ _ _ _ Hsend).
  - destruct (sendMessages _ _ w1) as [o3 w3] eqn:Hsend.
    by destruct (idle_sendMessages _ _ _ _ Hsend).
Qed.

End WorkflowFacts.

(** The bound of C2 on a model that never follows the format and a server
    that rejects every query. *)
Lemma queryBuildingWorkflow_bounded_witness :
  let llm := Scenario.scripted [] "Let me think about it." in
  let neo4j := Scenario.failingServer in
  let w := Scenario.connectedWorld in
  let text := "Who knows Alice?" in
  exists first w1 n last w2 reply,
    QueryBuilding.sendMessages llm [QueryBuilding.initialMessage] w = (Js.Returned first, w1)
    /\ QueryBuilding.queryBuildingLoop llm neo4j QueryBuilding.QUERY_BUILDING_MAX_LOOPS 0 first w1
         = (Js.Returned (n, last), w2)
    /\ n <= 20
    /\ length (Async.sent w2) <= length (Async.sent w1) + n
    /\ length (Async.issued w2) <= length (Async.issued w) + n
    /\ QueryBuilding.queryBuildingWorkflow llm neo4j text w
         = (Js.Returned reply, Vocabulary.afterSend w2 [QueryBuilding.finalMessage text])
    /\ llm (Async.sent w2 ++ [[QueryBuilding.finalMessage text]]) = Js.Returned reply.
Proof.
  intros llm neo4j w text.
  apply (queryBuildingWorkflow_bounded llm neo4j).
  intros calls. exact I.
Defined.

(** On that model the loop uses its whole budget: twenty passes, twenty-two
    messages in all and no query, every reply being invalid. *)
Example invalid_replies_exhaust_the_budget :
  let llm := Scenario.scripted [] "Let me think about it." in
  let run := QueryBuilding.queryBuildingWorkflow llm Scenario.failingServer
               "Who knows Alice?" Scenario.connectedWorld in
  length (Async.sent run.2) = 22
  /\ last (Async.sent run.2)
     = Some [QueryBuilding.finalMessage "Who knows Alice?"]
  /\ Async.issued run.2 = []
  /\ run.1 = Js.Returned (Scenario.assistantReply "Let me think about it.").
Proof. vm_compute. repeat split. Qed.

(** And a model that keeps searching on a server that rejects everything
    is cut off the same way, after twenty queries. *)
Example failing_searches_exhaust_the_budget :
  let llm := Scenario.scripted [] "Entity Search: Alice" in
  let run := QueryBuilding.queryBuildingWorkflow llm Scenario.failingServer
               "Who knows Alice?" Scenario.connectedWorld in
  length (Async.sent run.2) = 22
  /\ length (Async.issued run.2) = 20
  /\ last (Async.sent run.2)
     = Some [QueryBuilding.finalMessage "Who knows Alice?"].
Proof. vm_compute. repeat split. Qed.

(** C1 as the specification states it, refuted: a relationship type with
    code units outside the allow-list reaches the server inside the query
    text. *)
Lemma unchecked_relationshipType_reaches_store :
  let relationshipType := "KNOWS]->() DETACH DELETE e1 //" in
  let llm := Scenario.scripted ["Tail Search: abc123, KNOWS]->() DETACH DELETE e1 //"] "STOP" in
  let run := QueryBuilding.queryBuildingWorkflow llm Scenario.emptyServer
               "Who knows abc123?" Scenario.connectedWorld in
  Vocabulary.allowedRelationshipType relationshipType = false
  /\ Async.issued run.2
     = [(QueryBuilding.relatedEntitiesQuery relationshipType,
         Js.JsObject [("entityId", Js.JsStr "abc123")])].
Proof. vm_compute. split; reflexivity. Qed.

Lemma relationshipType_spliced_unchecked_witness :
  let llm := Scenario.scripted [] "STOP" in
  let w := Scenario.connectedWorld in
  Async.issued (QueryBuilding.handleRelatedEntitiesSearch llm Scenario.emptyServer
                  "abc123, KNOWS" w).2
    = Async.issued w
      ++ [(QueryBuilding.relatedEntitiesQueryBefore +:+ "KNOWS"
           +:+ QueryBuilding.relatedEntitiesQueryAfter,
           Js.JsObject [("entityId", Js.JsStr "abc123")])].
Proof.
  intros llm w.
  apply (relationshipType_spliced_unchecked llm Scenario.emptyServer "abc123, KNOWS").
  - eexists. reflexivity.
  - vm_compute. reflexivity.
Defined.

(** C6 as the specification states it, refuted: a payload with exactly
    one comma may give an empty field, and the search is made all the
    same. *)
Lemma empty_field_is_searched :
  let llm := Scenario.scripted [] "STOP" in
  let run := QueryBuilding.handleRelatedEntitiesSearch llm Scenario.emptyServer
               "abc123," Scenario.connectedWorld in
  Vocabulary.countChar "," "abc123," = 1
  /\ JsString.trim <$> JsString.split "abc123," "," = ["abc123"; EmptyString]
  /\ Async.issued run.2
     = [(QueryBuilding.relatedEntitiesQuery EmptyString,
         Js.JsObject [("entityId", Js.JsStr "abc123")])]
  /\ Async.sent run.2 <> [[QueryBuilding.formatErrorMessage]].
Proof. vm_compute. repeat split. discriminate. Qed.

(** ** The formatter and the normalizer *)

Section FormatFacts.
Import JsString Js Async RunCypherQuery Vocabulary.

Lemma mapOutcome_returns {A B : Type} (f : A -> Outcome B) (xs : list A) :
  Forall (fun x => exists y, f x = Returned y) xs ->
  exists ys, mapOutcome f xs = Returned ys.
Proof.
  induction 1 as [|x xs [y Hy] _ [ys Hys]]; simpl; [eauto|].
  rewrite Hy, Hys. eauto.
Qed.

Lemma mapOutcome_lookup {A B : Type} (f : A -> Outcome B) (xs : list A) (ys : list B) :
  mapOutcome f xs = Returned ys ->
  length ys = length xs
  /\ forall i x, xs !! i = Some x -> exists y, ys !! i = Some y /\ f x = Returned y.
Proof.
  revert ys. induction xs as [|x xs IH]; intros ys; simpl.
  - intros [= <-]. split; [done|]. intros i x Hx. by rewrite lookup_nil in Hx.
  - destruct (f x) as [y|e] eqn:Hy; [|done].
    destruct (mapOutcome f xs) as [ys'|e]; [|done].
    intros [= <-]. destruct (IH ys' eq_refl) as [Hlen Hlook].
    split; [simpl; by rewrite Hlen|].
    intros [|i] x'; simpl; [intros [= <-]; eauto|apply Hlook].
Qed.

Lemma fieldIndex_bound (keys : list string) (key : string) (i : nat) :
  fieldIndex keys key = Some i -> i < length keys.
Proof.
  revert i. induction keys as [|k keys IH]; intros i; simpl; [done|].
  destruct (fieldIndex keys key) as [j|].
  - intros [= <-]. specialize (IH j eq_refl). lia.
  - destruct (String.eqb k key); [|done]. intros [= <-]. lia.
Qed.

Lemma fieldIndex_elem (keys : list string) (key : string) :
  key ∈ keys -> is_Some (fieldIndex keys key).
Proof.
  induction 1 as [key keys|key k keys _ [i Hi]]; simpl.
  - destruct (fieldIndex keys key); [eauto|]. rewrite String.eqb_refl. eauto.
  - rewrite Hi. eauto.
Qed.

(** Without a repeated key the index of a key is its position. *)
Lemma fieldIndex_NoDup (keys : list string) (key : string) (j : nat) :
  NoDup keys -> keys !! j = Some key -> fieldIndex keys key = Some j.
Proof.
  intros Hnd. revert j. induction Hnd as [|k keys Hk Hnd IH]; intros j; [done|].
  destruct j as [|j]; simpl.
  - intros [= ->]. destruct (fieldIndex keys key) as [i|] eqn:Hi.
    + exfalso. apply Hk. clear -Hi. revert i Hi.
      induction keys as [|k keys IH]; intros i; simpl; [done|].
      destruct (fieldIndex keys key) as [j|] eqn:Hj.
      * intros _. right. by apply (IH j).
      * destruct (String.eqb_spec k key) as [->|]; [left|done].
    + by rewrite String.eqb_refl.
  - intros Hj. by rewrite (IH j Hj).
Qed.

Lemma recordGet_returns (record : Neo4jRecord) (key : string) :
  key ∈ rec_keys record ->
  length (rec_fields record) = length (rec_keys record) ->
  exists v, recordGet record key = Returned v.
Proof.
  intros Hin Hlen. unfold recordGet.
  destruct (String.eqb key "__proto__"); [eauto|].
  destruct (fieldIndex_elem _ _ Hin) as [i Hi]. rewrite Hi.
  apply fieldIndex_bound in Hi.
  destruct (lookup_lt_is_Some_2 (rec_fields record) i) as [v ->]; [lia|eauto].
Qed.

(** Under distinct keys [record.get] of a key other than [__proto__]
    is the field at the place of the key. *)
Lemma recordGet_field (record : Neo4jRecord) (key : string) (j : nat) (v : JsValue) :
  NoDup (rec_keys record) -> key <> "__proto__" ->
  rec_keys record !! j = Some key ->
  recordGet record key = Returned v ->
  rec_fields record !! j = Some v.
Proof.
  intros Hnd Hproto Hj. unfold recordGet.
  destruct (String.eqb_spec key "__proto__") as [->|_]; [done|].
  rewrite (fieldIndex_NoDup _ _ j Hnd Hj).
  destruct (rec_fields record !! j) as [v'|]; [by intros [= ->]|done].
Qed.

(** C10. On a result of the driver [formatCypherResult] returns; the
    columns are the keys of the first record; there is one row per
    record, with one entry per column, the entry at the place of a column
    being [record.get] of that column: [undefined] for a column named
    [__proto__], and the fields of the record in their order when no key
    is repeated and none is [__proto__]. On a result without records both
    the columns and the rows are empty, so the names of the projection
    are not reported. *)
Theorem formatCypherResult_shape (result : CypherResult) :
  wellShaped (records result) ->
  exists formattedResult,
    formatCypherResult result = Returned formattedResult
    /\ columns formattedResult = firstKeys (records result)
    /\ length (rows formattedResult) = length (records result)
    /\ (forall i record, records result !! i = Some record ->
          exists row,
            rows formattedResult !! i = Some row
            /\ length row = length (columns formattedResult)
            /\ (forall j column, columns formattedResult !! j = Some column ->
                  exists v, recordGet record column = Returned v /\ row !! j = Some v)
            /\ (forall j, columns formattedResult !! j = Some "__proto__" ->
                  row !! j = Some JsUndefined)
            /\ (NoDup (columns formattedResult) ->
                "__proto__" ∉ columns formattedResult ->
                row = rec_fields record))
    /\ (records result = [] ->
          columns formattedResult = [] /\ rows formattedResult = []).
Proof.
  intros Hshape. unfold formatCypherResult, firstKeys.
  destruct (records result) as [|first rest] eqn:Hrecords.
  { eexists. split; [reflexivity|]. simpl. repeat split; done. }
  specialize (Hshape first eq_refl).
  destruct (mapOutcome_returns
              (fun record => mapOutcome (recordGet record) (rec_keys first))
              (first :: rest)) as [rows Hrows].
  { eapply Forall_impl; [exact Hshape|]. intros record [Hkeys Hlen]. simpl.
    apply mapOutcome_returns, Forall_forall. intros key Hkey.
    apply recordGet_returns; [by rewrite Hkeys|done]. }
  rewrite Hrows. eexists. split; [reflexivity|]. simpl.
  destruct (mapOutcome_lookup _ _ _ Hrows) as [Hlen Hlook].
  repeat split; try done.
  intros i record Hi. destruct (Hlook i record Hi) as (row & Hrow & Hget).
  exists row. split; [done|].
  destruct (mapOutcome_lookup _ _ _ Hget) as [Hlen' Hlook'].
  split; [done|]. split; [|split].
  - intros j column Hj. destruct (Hlook' j column Hj) as (v & Hv & Hg). eauto.
  - intros j Hj. destruct (Hlook' j _ Hj) as (v & Hv & Hg).
    unfold recordGet in Hg. simpl in Hg. by injection Hg as <-.
  - intros Hnd Hproto.
    destruct (proj1 (Forall_forall _ _) Hshape record) as [Hkeys Hfields];
      [by eapply list_elem_of_lookup_2|].
    apply list_eq. intros j.
    destruct (rec_keys first !! j) as [column|] eqn:Hj.
    + destruct (Hlook' j column Hj) as (v & Hv & Hg). rewrite Hv. symmetry.
      apply (recordGet_field record column j v); [by rewrite Hkeys| |by rewrite Hkeys|done].
      intros ->. apply Hproto. by eapply list_elem_of_lookup_2.
    + apply lookup_ge_None in Hj.
      rewrite !(proj2 (lookup_ge_None _ _)); [done| |]; [rewrite Hfields, Hkeys|]; lia.
Qed.

End FormatFacts.

(** Two records of a projection [name, age]. *)
Lemma formatCypherResult_shape_witness :
  let result := Scenario.cypherResult
    [ {| Async.rec_keys := ["name"; "age"];
         Async.rec_fields := [Js.JsStr "Alice"; Js.JsNumber 30] |};
      {| Async.rec_keys := ["name"; "age"];
         Async.rec_fields := [Js.JsStr "Bob"; Js.JsNull] |} ] in
  exists formattedResult,
    RunCypherQuery.formatCypherResult result = Js.Returned formattedResult
    /\ RunCypherQuery.columns formattedResult
       = Vocabulary.firstKeys (RunCypherQuery.records result)
    /\ length (RunCypherQuery.rows formattedResult)
       = length (RunCypherQuery.records result)
    /\ (forall i record, RunCypherQuery.records result !! i = Some record ->
          exists row,
            RunCypherQuery.rows formattedResult !! i = Some row
            /\ length row = length (RunCypherQuery.columns formattedResult)
            /\ (forall j column,
                  RunCypherQuery.columns formattedResult !! j = Some column ->
                  exists v, RunCypherQuery.recordGet record column = Js.Returned v
                            /\ row !! j = Some v)
            /\ (forall j,
                  RunCypherQuery.columns formattedResult !! j = Some "__proto__" ->
                  row !! j = Some Js.JsUndefined)
            /\ (NoDup (RunCypherQuery.columns formattedResult) ->
                "__proto__" ∉ RunCypherQuery.columns formattedResult ->
                row = Async.rec_fields record))
    /\ (RunCypherQuery.records result = [] ->
          RunCypherQuery.columns formattedResult = []
          /\ RunCypherQuery.rows formattedResult = []).
Proof.
  intros result. apply (formatCypherResult_shape result).
  intros first [= <-]. repeat constructor.
Defined.

(** A column named [__proto__] reads [undefined], not the field. *)
Example formatCypherResult_proto_column :
  RunCypherQuery.formatCypherResult
    (Scenario.cypherResult
       [ {| Async.rec_keys := ["__proto__"; "age"];
            Async.rec_fields := [Js.JsStr "Alice"; Js.JsNumber 30] |} ])
  = Js.Returned (Scenario.formatted ["__proto__"; "age"]
                   [[Js.JsUndefined; Js.JsNumber 30]]).
Proof. reflexivity. Qed.

Example formatCypherResult_two_records :
  RunCypherQuery.formatCypherResult
    (Scenario.cypherResult
       [ {| Async.rec_keys := ["name"; "age"];
            Async.rec_fields := [Js.JsStr "Alice"; Js.JsNumber 30] |};
         {| Async.rec_keys := ["name"; "age"];
            Async.rec_fields := [Js.JsStr "Bob"; Js.JsNull] |} ])
  = Js.Returned (Scenario.formatted ["name"; "age"]
                   [[Js.JsStr "Alice"; Js.JsNumber 30]; [Js.JsStr "Bob"; Js.JsNull]]).
Proof. reflexivity. Qed.

Section NormalizerFacts.
Import JsString Js Async RunCypherQuery Vocabulary.

Lemma assign_fresh (column : string) (b : Binding) (binding : BindingObject) :
  column ∉ binding.*1 -> assign column b binding = binding ++ [(column, b)].
Proof.
  induction binding as [|[k b'] binding IH]; simpl; [done|].
  rewrite not_elem_of_cons. intros [Hne Hnot].
  destruct (String.eqb_spec k column) as [->|_]; [done|]. by rewrite IH.
Qed.

Lemma bindRow_from (row : list JsValue) (columns : list string) :
  forall (place : nat -> nat) (binding : BindingObject),
    NoDup (binding.*1 ++ columns) ->
    "__proto__" ∉ columns ->
    foldl (bindCell row) binding (imap (fun i column => (place i, column)) columns)
      = binding
        ++ imap (fun i column =>
                   (column, cellBinding (default JsUndefined (row !! place i))))
                columns.
Proof.
  induction columns as [|column columns IH]; intros place binding Hnd Hproto.
  - simpl. by rewrite app_nil_r.
  - simpl. apply not_elem_of_cons in Hproto as [Hne Hproto].
    unfold setBinding.
    destruct (String.eqb_spec column "__proto__") as [->|_]; [done|].
    rewrite assign_fresh.
    2:{ apply NoDup_app in Hnd as (_ & Hdisj & _). intros Hin.
        apply (Hdisj _ Hin). by left. }
    rewrite (IH (place ∘ S)); [|by rewrite fmap_app, <- app_assoc|done].
    by rewrite <- app_assoc.
Qed.

(** The binding of a row under distinct column names: one entry per
    column in the order of the columns, holding the binding of the cell
    at the index of the column, [undefined] beyond the end of the row. *)
Lemma bindRow_distinct (columns : list string) (row : list JsValue) :
  NoDup columns -> "__proto__" ∉ columns ->
  bindRow columns row
    = imap (fun i column => (column, cellBinding (default JsUndefined (row !! i))))
           columns.
Proof.
  intros Hnd Hproto. unfold bindRow.
  by apply (bindRow_from row columns (fun i => i) []).
Qed.

(** C4, amended. Every cell value gets one binding: [null] and an absent
    cell are [unknown] with the empty string; a plain object with a
    truthy property [_labels], [_id] or [_type] is [uri] and any other
    object, an array included, is [object], both with their JSON text; a
    primitive has its [typeof] and its string form. The row of the
    specification, whose object has the property [labels], gives
    [unknown], [string] and [object]; the same row with [_labels] gives
    [uri] for the third cell. *)
Theorem cell_normalization :
  (forall value : JsValue,
     cellBinding value
     = match value with
       | JsNull | JsUndefined =>
           {| binding_type := "unknown"; binding_value := EmptyString |}
       | JsObject props =>
           {| binding_type := if hasEntityMarker props then "uri" else "object";
              binding_value := stringify value |}
       | JsArray _ =>
           {| binding_type := "object"; binding_value := stringify value |}
       | JsBoolean _ | JsNumber _ | JsStr _ =>
           {| binding_type := typeof value; binding_value := toString value |}
       end)
  /\ (forall (columns : list string) (row : list JsValue),
        NoDup columns -> "__proto__" ∉ columns ->
        bindRow columns row
          = imap (fun i column => (column, cellBinding (default JsUndefined (row !! i))))
                 columns)
  /\ results_bindings
       (convertToSparqlResultsFormat
          (Scenario.formatted ["a"; "b"; "c"] [[JsNull; JsStr "x"; Scenario.labelled]]))
     = [[("a", {| binding_type := "unknown"; binding_value := EmptyString |});
         ("b", {| binding_type := "string"; binding_value := "x" |});
         ("c", {| binding_type := "object"; binding_value := personJson "labels" |})]]
  /\ results_bindings
       (convertToSparqlResultsFormat
          (Scenario.formatted ["a"; "b"; "c"] [[JsNull; JsStr "x"; Scenario.marked]]))
     = [[("a", {| binding_type := "unknown"; binding_value := EmptyString |});
         ("b", {| binding_type := "string"; binding_value := "x" |});
         ("c", {| binding_type := "uri"; binding_value := personJson "_labels" |})]].
Proof.
  split; [by intros []|]. split; [apply bindRow_distinct|]. by split.
Qed.

End NormalizerFacts.

(** C4 as the specification states it, refuted: the object of the example
    row carries [labels], which is not a marker that the code looks for,
    and its binding is not a [uri]. *)
Lemma labelled_cell_is_not_uri :
  RunCypherQuery.results_bindings
    (RunCypherQuery.convertToSparqlResultsFormat
       (Scenario.formatted ["a"; "b"; "c"]
          [[Js.JsNull; Js.JsStr "x"; Scenario.labelled]]))
  <> [[("a", {| RunCypherQuery.binding_type := "unknown";
                RunCypherQuery.binding_value := EmptyString |});
       ("b", {| RunCypherQuery.binding_type := "string";
                RunCypherQuery.binding_value := "x" |});
       ("c", {| RunCypherQuery.binding_type := "uri";
                RunCypherQuery.binding_value := Vocabulary.personJson "labels" |})]].
Proof. vm_compute. discriminate. Qed.

(** ** Regular expressions *)

Section RegexFacts.
Import JsString Regex ParseCypherQuery Vocabulary.

Context {R : Type}.

Lemma star_progress (p : ascii -> bool) (s : string) :
  forall (i : nat) (caps : captures) (k : nat -> string -> captures -> option R) (x : R),
    star p i s caps k = Some x ->
    exists i' s' caps', i <= i' /\ k i' s' caps' = Some x.
Proof.
  induction s as [|c s IH]; intros i caps k x; simpl; [eauto|].
  destruct (p c); [|eauto].
  destruct (star p (S i) s caps k) as [y|] eqn:Hstar; [|eauto].
  intros [= ->]. destruct (IH _ _ _ _ Hstar) as (i' & s' & caps' & Hle & Hk).
  exists i', s', caps'. split; [lia|done].
Qed.

End RegexFacts.

(** A match consumes at least [minLength r] code units, so every pattern
    of the extractor moves [lastIndex] forward. *)
Lemma rmatch_progress (r : Regex.regex) :
  forall (R : Type) (i : nat) (s : string) (caps : Regex.captures)
         (k : nat -> string -> Regex.captures -> option R) (x : R),
    Regex.rmatch r i s caps k = Some x ->
    exists i' s' caps', i + Vocabulary.minLength r <= i' /\ k i' s' caps' = Some x.
Proof.
  induction r as [|c|p|r1 IH1 r2 IH2|r1 IH1 r2 IH2|r1 IH1|p|p|n r1 IH1| |];
    intros R i s caps k x; simpl.
  - intros Hk. exists i, s, caps. split; [lia|done].
  - destruct s as [|c' s]; [done|]. destruct (Ascii.eqb c c'); [|done].
    intros Hk. exists (S i), s, caps. split; [lia|done].
  - destruct s as [|c' s]; [done|]. destruct (p c'); [|done].
    intros Hk. exists (S i), s, caps. split; [lia|done].
  - intros H. apply IH1 in H as (i1 & s1 & caps1 & Hle1 & H).
    apply IH2 in H as (i2 & s2 & caps2 & Hle2 & H).
    exists i2, s2, caps2. split; [lia|done].
  - destruct (Regex.rmatch r1 i s caps k) as [y|] eqn:H1.
    + intros [= ->]. apply IH1 in H1 as (i1 & s1 & caps1 & Hle1 & H).
      exists i1, s1, caps1. split; [lia|done].
    + intros H. apply IH2 in H as (i2 & s2 & caps2 & Hle2 & H).
      exists i2, s2, caps2. split; [lia|done].
  - destruct (Regex.rmatch r1 i s caps k) as [y|] eqn:H1.
    + intros [= ->]. apply IH1 in H1 as (i1 & s1 & caps1 & Hle1 & H).
      exists i1, s1, caps1. split; [lia|done].
    + intros Hk. exists i, s, caps. split; [lia|done].
  - intros H. apply star_progress in H as (i' & s' & caps' & Hle & H).
    exists i', s', caps'. split; [lia|done].
  - destruct s as [|c' s]; [done|]. destruct (p c'); [|done].
    intros H. apply star_progress in H as (i' & s' & caps' & Hle & H).
    exists i', s', caps'. split; [lia|done].
  - intros H. apply IH1 in H as (i1 & s1 & caps1 & Hle1 & H). eauto.
  - destruct (i =? 0); [|done]. intros Hk. exists i, s, caps. split; [lia|done].
  - destruct (JsString.isEmpty s); [|done].
    intros Hk. exists i, s, caps. split; [lia|done].
Qed.

Lemma matchAt_progress (r : Regex.regex) (i j : nat) (s : string) (caps : Regex.captures) :
  Regex.matchAt r i s = Some (j, caps) -> i + Vocabulary.minLength r <= j.
Proof.
  unfold Regex.matchAt. intros H.
  apply rmatch_progress in H as (i' & s' & caps' & Hle & [= <- _]). done.
Qed.

(** The four global patterns of [parseCypherQuery] never match the empty
    string. *)
Lemma patterns_consume :
  Vocabulary.minLength ParseCypherQuery.whitespaceRun = 1
  /\ Vocabulary.minLength ParseCypherQuery.lineComment = 2
  /\ Vocabulary.minLength ParseCypherQuery.nodePattern = 3
  /\ Vocabulary.minLength ParseCypherQuery.relPattern = 7.
Proof. by vm_compute. Qed.

(** ** The pattern extractor *)

Section ExtractorFacts.
Import JsString Regex ParseCypherQuery Vocabulary.

Lemma hasNode_registerNode (node : Neo4jNode) (st : ParseState) (v : string) :
  hasNode (registerNode node st) v = true
  <-> v = node_variable node \/ hasNode st v = true.
Proof.
  unfold hasNode, registerNode. simpl. rewrite !bool_decide_eq_true.
  rewrite lookup_insert_is_Some. split.
  - intros [<-|[_ H]]; [by left|by right].
  - intros [->|H]; [by left|].
    destruct (decide (node_variable node = v)); [by left|by right].
Qed.

Lemma cover_registerNode (node : Neo4jNode) (st : ParseState) :
  nodesCoverMap st -> nodesCoverMap (registerNode node st).
Proof.
  intros Hst v. rewrite hasNode_registerNode. intros [->|Hv].
  - exists node. split; [|done]. simpl. set_solver.
  - destruct (Hst v Hv) as (n & Hn & Hvar). exists n. split; [|done].
    simpl. set_solver.
Qed.

Lemma cover_nodeStep (st : ParseState) (m : captures) :
  nodesCoverMap st -> nodesCoverMap (nodeStep st m).
Proof.
  intros Hst. unfold nodeStep. destruct (hasNode st (group m 1)); [done|].
  by apply cover_registerNode.
Qed.

Lemma relationships_nodeStep (st : ParseState) (m : captures) :
  st_relationships (nodeStep st m) = st_relationships st.
Proof. unfold nodeStep. by destruct (hasNode st (group m 1)). Qed.

Lemma scanNodes_invariant (normalizedQuery : string) :
  nodesCoverMap (scanNodes normalizedQuery)
  /\ st_relationships (scanNodes normalizedQuery) = [].
Proof.
  unfold scanNodes. generalize (execAll nodePattern normalizedQuery). intros ms.
  assert (H : nodesCoverMap initialState /\ st_relationships initialState = []).
  { split; [|done]. intros v Hv. unfold hasNode, initialState in Hv. simpl in Hv.
    rewrite lookup_empty in Hv. apply bool_decide_eq_true in Hv. by destruct Hv. }
  revert H. generalize initialState. induction ms as [|m ms IH]; intros st [H1 H2]; [done|].
  simpl. apply IH. split; [by apply cover_nodeStep|by rewrite relationships_nodeStep].
Qed.

Lemma ensureNode_spec (v : string) (st : ParseState) :
  hasNode (ensureNode v st) v = true
  /\ (forall u, hasNode st u = true -> hasNode (ensureNode v st) u = true)
  /\ st_relationships (ensureNode v st) = st_relationships st
  /\ (nodesCoverMap st -> nodesCoverMap (ensureNode v st))
  /\ (forall node, node ∈ st_nodes st -> node ∈ st_nodes (ensureNode v st))
  /\ (forall u, hasNode (ensureNode v st) u = true ->
        hasNode st u = true
        \/ (u = v /\ hasNode st v = false /\ placeholder v ∈ st_nodes (ensureNode v st))).
Proof.
  unfold ensureNode. destruct (hasNode st v) eqn:Hv.
  - repeat split; auto.
  - split; [apply hasNode_registerNode; by left|].
    split; [intros u Hu; apply hasNode_registerNode; by right|].
    split; [done|]. split; [apply cover_registerNode|].
    split; [intros node Hn; simpl; set_solver|].
    intros u Hu. apply hasNode_registerNode in Hu as [->|Hu]; [right|by left].
    split; [done|]. split; [done|]. simpl. unfold placeholder. set_solver.
Qed.

(** One pass of the relationship loop keeps the three invariants. *)
Lemma relStep_invariant (st0 st : ParseState) (m : captures) :
  nodesCoverMap st -> endsRegistered st -> newAreBare st0 st ->
  nodesCoverMap (relStep st m) /\ endsRegistered (relStep st m)
  /\ newAreBare st0 (relStep st m).
Proof.
  intros Hcover Hends Hnew. unfold relStep.
  set (rel := {| rel_variable := _ |}).
  set (st1 := {| st_nodes := st_nodes st; st_relationships := _ |}).
  assert (Hhas : forall u, hasNode st1 u = hasNode st u) by done.
  destruct (ensureNode_spec (group m 1) st1) as (Hs1 & Hmono1 & Hrel1 & Hcov1 & Hin1 & Hnew1).
  destruct (ensureNode_spec (group m 5) (ensureNode (group m 1) st1))
    as (Hs2 & Hmono2 & Hrel2 & Hcov2 & Hin2 & Hnew2).
  split; [apply Hcov2, Hcov1; intros v Hv; rewrite Hhas in Hv; by apply Hcover|].
  split.
  - intros r. rewrite Hrel2, Hrel1. simpl. rewrite elem_of_app, list_elem_of_singleton.
    intros [Hr| ->].
    + destruct (Hends r Hr) as [Hsrc Htgt].
      split; apply Hmono2, Hmono1; by rewrite Hhas.
    + simpl. split; [by apply Hmono2|done].
  - intros v Hv0 Hv. destruct (Hnew2 v Hv) as [Hv1|(-> & _ & Hp)]; [|done].
    apply Hin2. destruct (Hnew1 v Hv1) as [Hvst|(-> & _ & Hp)]; [|done].
    apply Hin1. rewrite Hhas in Hvst. by apply Hnew.
Qed.

Lemma foldl_relStep_invariant (st0 : ParseState) (ms : list captures) :
  forall st : ParseState,
    nodesCoverMap st -> endsRegistered st -> newAreBare st0 st ->
    nodesCoverMap (foldl relStep st ms)
    /\ endsRegistered (foldl relStep st ms)
    /\ newAreBare st0 (foldl relStep st ms).
Proof.
  induction ms as [|m ms IH]; intros st Hcover Hends Hnew; [done|].
  simpl. destruct (relStep_invariant st0 st m) as (H1 & H2 & H3); try done.
  by apply IH.
Qed.

Lemma scanRelationships_invariant (normalizedQuery : string) (st0 : ParseState) :
  nodesCoverMap st0 -> endsRegistered st0 ->
  nodesCoverMap (scanRelationships normalizedQuery st0)
  /\ endsRegistered (scanRelationships normalizedQuery st0)
  /\ newAreBare st0 (scanRelationships normalizedQuery st0).
Proof.
  intros Hcover Hends. unfold scanRelationships.
  apply foldl_relStep_invariant; [done|done|].
  intros v H1 H2. congruence.
Qed.

(** C9. In the pattern extracted from any text, the source and the
    target of every relationship are the variables of nodes of the same
    pattern; a variable at an end of a relationship that the node scan
    did not register has a node without labels and without properties.
    In [(a)-[:X]->(c)] the node [c] has no label; in
    [(x {k: (a)-[:R]->(b)})] the nodes [a] and [b] are such additions. *)
Theorem relationship_ends_resolve :
  (forall (query : string) (r : Neo4jRelationship),
     r ∈ relationships (parseCypherQuery query) ->
     (exists node, node ∈ nodes (parseCypherQuery query)
                   /\ node_variable node = rel_source r)
     /\ (exists node, node ∈ nodes (parseCypherQuery query)
                      /\ node_variable node = rel_target r))
  /\ (forall (query : string) (r : Neo4jRelationship) (v : string),
        r ∈ relationships (parseCypherQuery query) ->
        v = rel_source r \/ v = rel_target r ->
        hasNode (scanNodes (normalizeQuery query)) v = false ->
        placeholder v ∈ nodes (parseCypherQuery query))
  /\ parseCypherQuery "(a)-[:X]->(c)"
     = {| nodes := [placeholder "a"; placeholder "c"];
          relationships := [plainRelationship "X" "a" "c"] |}
  /\ (hasNode (scanNodes (normalizeQuery "(x {k: (a)-[:R]->(b)})")) "b" = false
      /\ relationships (parseCypherQuery "(x {k: (a)-[:R]->(b)})")
         = [plainRelationship "R" "a" "b"]
      /\ placeholder "b" ∈ nodes (parseCypherQuery "(x {k: (a)-[:R]->(b)})")).
Proof.
  assert (Hinv : forall query,
            nodesCoverMap (scanRelationships (normalizeQuery query)
                             (scanNodes (normalizeQuery query)))
            /\ endsRegistered (scanRelationships (normalizeQuery query)
                                 (scanNodes (normalizeQuery query)))
            /\ newAreBare (scanNodes (normalizeQuery query))
                  (scanRelationships (normalizeQuery query)
                     (scanNodes (normalizeQuery query)))).
  { intros query. destruct (scanNodes_invariant (normalizeQuery query)) as [Hc Hr].
    apply scanRelationships_invariant; [done|].
    intros r. rewrite Hr. by rewrite elem_of_nil. }
  split; [|split; [|split]].
  - intros query r Hr. destruct (Hinv query) as (Hcover & Hends & _).
    destruct (Hends r Hr) as [Hsrc Htgt]. split; by apply Hcover.
  - intros query r v Hr Hv Hfresh. destruct (Hinv query) as (_ & Hends & Hnew).
    destruct (Hends r Hr) as [Hsrc Htgt]. apply Hnew; [done|].
    by destruct Hv as [->| ->].
  - by vm_compute.
  - split; [by vm_compute|]. split; [by vm_compute|].
    apply list_elem_of_In. vm_compute. tauto.
Qed.

(** C3, amended. From [(a:Person)-[:KNOWS]->(b:Person)] the extractor
    takes exactly the two nodes [a] and [b], each with the one label
    [Person], and no relationship: the relationship pattern asks for both
    ends to be a bare variable between parentheses. Written that way,
    [(a)-[:KNOWS]->(b)] gives the one relationship of type [KNOWS] from
    [a] to [b]. *)
Theorem labelled_ends_give_no_relationship :
  parseCypherQuery "(a:Person)-[:KNOWS]->(b:Person)"
  = {| nodes := [labelledNode "a" ["Person"]; labelledNode "b" ["Person"]];
       relationships := [] |}
  /\ parseCypherQuery "(a)-[:KNOWS]->(b)"
     = {| nodes := [placeholder "a"; placeholder "b"];
          relationships := [plainRelationship "KNOWS" "a" "b"] |}.
Proof. split; by vm_compute. Qed.

End ExtractorFacts.

(** C3 as the specification states it, refuted: no relationship comes out
    of the example. *)
Lemma labelled_example_has_no_relationship :
  ParseCypherQuery.parseCypherQuery "(a:Person)-[:KNOWS]->(b:Person)"
  <> {| ParseCypherQuery.nodes :=
          [Vocabulary.labelledNode "a" ["Person"]; Vocabulary.labelledNode "b" ["Person"]];
        ParseCypherQuery.relationships :=
          [Vocabulary.plainRelationship "KNOWS" "a" "b"] |}.
Proof. vm_compute. discriminate. Qed.

(** * Further properties *)

(** ** The executor and the connection *)

Section ConnectionFacts.
Import JsString Js Async RunCypherQuery Neo4jConnection Vocabulary.

Variable createDriver : string -> string -> string -> Outcome Driver.
Variable neo4j : list Run -> Outcome QueryResult.

Lemma runQuery_connected (query : string) (params : JsValue) (w : World) :
is_Some (driver w) ->
runQuery neo4j query params w
  = (neo4j (issued w ++ [(query, params)]), afterRun w (query, params)).
Proof. intros [d Hd]. unfold runQuery, afterRun. by rewrite Hd. Qed.

Lemma runQuery_disconnected (query : string) (params : JsValue) (w : World) :
driver w = None ->
runQuery neo4j query params w = (Threw (ThrownError "Not connected to Neo4j"), w).
Proof. intros Hd. unfold runQuery. by rewrite Hd. Qed.

Lemma runCypherQuery_with_driver (query : string) (params : JsValue) (w : World) :
is_Some (driver w) ->
runCypherQuery neo4j query params w
  = (match neo4j (issued w ++ [(query, params)]) with
     | Returned result =>
         Returned {| records := qr_records result;
                     summary_query := qr_query_text result;
                     summary_parameters := qr_query_parameters result;
                     summary_counters := qr_counters_updates result |}
     | Threw e => Threw e
     end,
     afterRun w (query, params)).
Proof.
intros Hd. unfold runCypherQuery, isConnected, tryCatch, bind.
rewrite (runQuery_connected query params w Hd).
destruct Hd as [d Hd]. rewrite Hd. simpl. by destruct (neo4j _).
Qed.

(** X1. With a driver in place [runCypherQuery] hands the query text and
    the parameters to the server once, unchanged, and passes the outcome
    on: the records and the summary of the result, or the very value that
    the server threw. *)
Theorem runCypherQuery_passes_outcome (query : string) (params : JsValue) (w : World) :
is_Some (driver w) ->
runCypherQuery neo4j query params w
  = (match neo4j (issued w ++ [(query, params)]) with
     | Returned result =>
         Returned {| records := qr_records result;
                     summary_query := qr_query_text result;
                     summary_parameters := qr_query_parameters result;
                     summary_counters := qr_counters_updates result |}
     | Threw e => Threw e
     end,
     afterRun w (query, params)).
Proof. apply runCypherQuery_with_driver. Qed.

(** X2. The life of the connection as the executor sees it: after
    [close], and after a [connect] whose driver creation throws, even when
    a driver was in place before, [runCypherQuery] throws
    [Not connected to Neo4j] and issues nothing; after a [connect] whose
    driver creation succeeds it issues the query. [connect] itself never
    throws: it answers [false] in the first case and [true] in the
    second. *)
Theorem connection_lifecycle
  (uri username password : string) (databaseArg : option string)
  (query : string) (params : JsValue) (w : World) :
(let w1 := (close w).2 in
 runCypherQuery neo4j query params w1
   = (Threw (ThrownError "Not connected to Neo4j"), w1))
/\ (forall e, createDriver uri username password = Threw e ->
      let r := connect createDriver uri username password databaseArg w in
      r.1 = Returned false
      /\ driver r.2 = None
      /\ runCypherQuery neo4j query params r.2
         = (Threw (ThrownError "Not connected to Neo4j"), r.2))
/\ (forall d, createDriver uri username password = Returned d ->
      let r := connect createDriver uri username password databaseArg w in
      r.1 = Returned true
      /\ driver r.2 = Some d
      /\ database r.2 = default "neo4j" databaseArg
      /\ issued (runCypherQuery neo4j query params r.2).2
         = issued w ++ [(query, params)]).
Proof.
split; [|split].
- apply runCypherQuery_without_driver. unfold close.
  by destruct (driver w) eqn:Hdw.
- intros e He. cbv zeta.
  unfold connect, tryCatch, bind, lift, isConnected, close, setDriver, ret.
  rewrite He. destruct (driver w) eqn:Hdw; simpl;
    (split; [done|]); (split; [done|]); by apply runCypherQuery_without_driver.
- intros d Hd. cbv zeta.
  unfold connect, tryCatch, bind, lift, isConnected, close, setDriver, setDatabase, ret.
  rewrite Hd. destruct (driver w) eqn:Hdw; simpl; repeat (split; [done|]);
    by rewrite runCypherQuery_with_driver.
Qed.

(** X3. [verifyConnection] never throws and sends nothing to the model.
    It answers [true] exactly when a driver is in place and the server
    answers [RETURN 1 as n] with at least one record; without a driver it
    answers [false] and no query is issued. *)
Theorem verifyConnection_outcome (w : World) :
verifyConnection neo4j w
  = match driver w with
    | None => (Returned false, w)
    | Some _ =>
        (Returned match neo4j (issued w ++ [("RETURN 1 as n", JsObject [])]) with
                  | Returned result => 0 <? length (qr_records result)
                  | Threw _ => false
                  end,
         afterRun w ("RETURN 1 as n", JsObject []))
    end.
Proof.
unfold verifyConnection, tryCatch, bind. destruct (driver w) as [d|] eqn:Hd.
- rewrite runQuery_connected by (by rewrite Hd). by destruct (neo4j _).
- by rewrite runQuery_disconnected.
Qed.

(** X4. [getDatabases] and [getDatabaseInfo] never throw: whatever the
    server does they return, with at most their one query issued and
    nothing else changed; without a driver they return the empty list and
    [null] and issue nothing; when the server throws they return the empty
    list and [null] as well. *)
Theorem database_probes_never_throw (w : World) :
(exists names w',
   getDatabases neo4j w = (Returned names, w')
   /\ (w' = w \/ w' = afterRun w ("SHOW DATABASES YIELD name RETURN name", JsObject []))
   /\ (driver w = None -> names = [] /\ w' = w)
   /\ (forall e, neo4j (issued w ++ [("SHOW DATABASES YIELD name RETURN name", JsObject [])])
                 = Threw e -> names = []))
/\ (exists info w',
      getDatabaseInfo neo4j w = (Returned info, w')
      /\ (w' = w
          \/ w' = afterRun w
               ("CALL dbms.components() YIELD name, versions, edition RETURN name, versions, edition",
                JsObject []))
      /\ (driver w = None -> info = None /\ w' = w)
      /\ (forall e,
            neo4j (issued w
                   ++ [("CALL dbms.components() YIELD name, versions, edition RETURN name, versions, edition",
                        JsObject [])])
            = Threw e -> info = None)).
Proof.
split.
- unfold getDatabases, isConnected, tryCatch, bind, lift.
  destruct (driver w) as [d|] eqn:Hd; simpl.
  + rewrite runQuery_connected by (by rewrite Hd).
    destruct (neo4j _) as [result|e]; simpl.
    * destruct (mapOutcome _ _) as [names|e]; simpl;
        eexists _, _; (split; [reflexivity|]); (split; [by right|]); by split.
    * eexists _, _. split; [reflexivity|]. split; [by right|]. by split.
  + eexists _, _. split; [reflexivity|]. split; [by left|]. by split.
- unfold getDatabaseInfo, isConnected, tryCatch, bind, lift.
  destruct (driver w) as [d|] eqn:Hd; simpl.
  + rewrite runQuery_connected by (by rewrite Hd).
    destruct (neo4j _) as [result|e]; simpl.
    * destruct (qr_records result) as [|record rest]; simpl.
      { eexists _, _. split; [reflexivity|]. split; [by right|]. by split. }
      destruct (recordGet record "name"); simpl;
        [|eexists _, _; (split; [reflexivity|]); (split; [by right|]); by split].
      destruct (recordGet record "versions") as [versions|]; simpl;
        [|eexists _, _; (split; [reflexivity|]); (split; [by right|]); by split].
      destruct (firstElement versions); simpl;
        [|eexists _, _; (split; [reflexivity|]); (split; [by right|]); by split].
      destruct (recordGet record "edition"); simpl;
        eexists _, _; (split; [reflexivity|]); (split; [by right|]); by split.
    * eexists _, _. split; [reflexivity|]. split; [by right|]. by split.
  + eexists _, _. split; [reflexivity|]. split; [by left|]. by split.
Qed.

End ConnectionFacts.

Lemma runCypherQuery_passes_outcome_witness :
  let w := Scenario.connectedWorld in
  RunCypherQuery.runCypherQuery Scenario.failingServer "RETURN 1" (Js.JsObject []) w
    = (match Scenario.failingServer (Async.issued w ++ [("RETURN 1", Js.JsObject [])]) with
       | Js.Returned result =>
           Js.Returned {| RunCypherQuery.records := Async.qr_records result;
                          RunCypherQuery.summary_query := Async.qr_query_text result;
                          RunCypherQuery.summary_parameters := Async.qr_query_parameters result;
                          RunCypherQuery.summary_counters := Async.qr_counters_updates result |}
       | Js.Threw e => Js.Threw e
       end,
       Vocabulary.afterRun w ("RETURN 1", Js.JsObject [])).
Proof.
  intros w.
  apply (runCypherQuery_passes_outcome Scenario.failingServer "RETURN 1" (Js.JsObject []) w).
  eexists. reflexivity.
Defined.

(** ** The handlers and the workflow, beyond the bound *)

Section HandlerFacts.
Import JsString Js Async RunCypherQuery QueryBuilding Vocabulary Terms.

Variable llm : list (list ChatMessage) -> Outcome ChatMessage.
Variable neo4j : list Run -> Outcome QueryResult.

Lemma idle_ret {A : Type} (a : A) : serverIdle (@ret A a).
Proof. intros w o w'. unfold ret. by intros [= <- <-]. Qed.

Lemma idle_tryCatch {A : Type} (body : M A) (handler : Thrown -> M A) :
serverIdle body -> (forall e, serverIdle (handler e)) -> serverIdle (tryCatch body handler).
Proof.
intros Hb Hh w o w'. unfold tryCatch. destruct (body w) as [[a|e] w1] eqn:Hbw.
- intros [= <- <-]. by apply (Hb _ _ _ Hbw).
- intros Hhe. destruct (Hb _ _ _ Hbw) as [H1 H2].
  destruct (Hh e _ _ _ Hhe) as [H3 H4]. split; congruence.
Qed.

Lemma runCypherQuery_runs (query : string) (params : JsValue) (w : World) :
exists o w1,
  runCypherQuery neo4j query params w = (o, w1)
  /\ issued w1 = issued w ++ runsOf w (query, params)
  /\ driver w1 = driver w /\ sent w1 = sent w.
Proof.
unfold runsOf, isConnected. destruct (driver w) as [d|] eqn:Hd.
- destruct (runCypherQuery_connected neo4j query params w) as [o Ho]; [by rewrite Hd|].
  exists o, (afterRun w (query, params)). by rewrite Ho.
- exists (Threw (ThrownError "Not connected to Neo4j")), w.
  rewrite runCypherQuery_without_driver by done. by rewrite app_nil_r.
Qed.

(** The runs of a search of the common shape: those of its query. *)
Lemma search_runs (query : string) (params : JsValue)
  (body : CypherResult -> M ChatMessage) (onError : Thrown -> list ChatMessage)
  (w : World) :
(forall result, serverIdle (body result)) ->
issued (tryCatch (bind (runCypherQuery neo4j query params) body)
                 (fun error => sendMessages llm (onError error)) w).2
  = issued w ++ runsOf w (query, params).
Proof.
intros Hbody.
destruct (runCypherQuery_runs query params w) as (o & w1 & Hrun & Hi & _ & _).
unfold tryCatch, bind. rewrite Hrun. rewrite <- Hi. destruct o as [result|e].
- destruct (body result w1) as [[reply|e] w2] eqn:Hb.
  + by destruct (Hbody _ _ _ _ Hb).
  + destruct (Hbody _ _ _ _ Hb) as [<- _].
    destruct (sendMessages _ _ w2) as [o3 w3] eqn:Hsend.
    by destruct (idle_sendMessages _ _ _ _ _ Hsend).
- destruct (sendMessages _ _ w1) as [o3 w3] eqn:Hsend.
  by destruct (idle_sendMessages _ _ _ _ _ Hsend).
Qed.

(** X5. The entity search and the properties search are parameterized:
    whatever the search term or the entity identifier, the query text
    issued is the same constant text and the argument travels only as the
    parameter [searchTerm] or [entityId]. Each handler issues that one
    query when a driver is in place and none otherwise. *)
Theorem searches_are_parameterized (argument : string) (w : World) :
issued (handleEntitySearch llm neo4j argument w).2
  = issued w ++ runsOf w (entitySearchQuery, JsObject [("searchTerm", JsStr argument)])
/\ issued (handlePropertiesSearch llm neo4j argument w).2
   = issued w ++ runsOf w (propertiesSearchQuery, JsObject [("entityId", JsStr argument)]).
Proof.
split.
- unfold handleEntitySearch. apply search_runs. intros result.
  destruct (Nat.eqb _ _); [apply idle_sendMessages|].
  apply idle_bind; [apply idle_lift|]. intros pieces. apply idle_sendMessages.
- unfold handlePropertiesSearch. apply search_runs. intros result.
  destruct (records result); [apply idle_sendMessages|].
  apply idle_bind; [apply idle_lift|]. intros properties.
  apply idle_bind; [apply idle_lift|]. intros text. apply idle_sendMessages.
Qed.

(** X6. A failure of the store inside a search does not leave the
    handler as a throw: it becomes one system message that carries the
    message of the error after a prefix proper to the handler, and the
    handler hands back what the transport answers to it. This holds when
    no driver is in place, the error being [Not connected to Neo4j] and no
    query being issued, and when the server throws on the query. *)
Theorem store_errors_become_messages (argument entityId relationshipType : string)
  (w : World) :
(driver w = None ->
 handleEntitySearch llm neo4j argument w
   = sendMessages llm
       [systemMessage "Error searching for entities: Not connected to Neo4j"
          "Entity Fuzzy Searching"] w
 /\ handlePropertiesSearch llm neo4j argument w
    = sendMessages llm
        [systemMessage "Error getting properties for entity: Not connected to Neo4j"
           "Property Search"] w
 /\ searchRelatedEntities llm neo4j entityId relationshipType w
    = sendMessages llm
        [systemMessage "Error finding related entities: Not connected to Neo4j"
           "Tail Search"] w)
/\ (is_Some (driver w) ->
    (forall e run,
       run = (entitySearchQuery, JsObject [("searchTerm", JsStr argument)]) ->
       neo4j (issued w ++ [run]) = Threw e ->
       handleEntitySearch llm neo4j argument w
         = sendMessages llm
             [systemMessage ("Error searching for entities: " +:+ errorMessage e)
                "Entity Fuzzy Searching"] (afterRun w run))
    /\ (forall e run,
          run = (propertiesSearchQuery, JsObject [("entityId", JsStr argument)]) ->
          neo4j (issued w ++ [run]) = Threw e ->
          handlePropertiesSearch llm neo4j argument w
            = sendMessages llm
                [systemMessage ("Error getting properties for entity: " +:+ errorMessage e)
                   "Property Search"] (afterRun w run))
    /\ (forall e run,
          run = (relatedEntitiesQuery relationshipType,
                 JsObject [("entityId", JsStr entityId)]) ->
          neo4j (issued w ++ [run]) = Threw e ->
          searchRelatedEntities llm neo4j entityId relationshipType w
            = sendMessages llm
                [systemMessage ("Error finding related entities: " +:+ errorMessage e)
                   "Tail Search"] (afterRun w run))).
Proof.
split.
- intros Hd.
  unfold handleEntitySearch, handlePropertiesSearch, searchRelatedEntities, tryCatch, bind.
  by rewrite !runCypherQuery_without_driver.
- intros Hd.
  assert (Hrun : forall query params e,
            neo4j (issued w ++ [(query, params)]) = Threw e ->
            runCypherQuery neo4j query params w = (Threw e, afterRun w (query, params))).
  { intros query params e He. rewrite runCypherQuery_with_driver by done.
    by rewrite He. }
  unfold handleEntitySearch, handlePropertiesSearch, searchRelatedEntities, tryCatch, bind.
  repeat split; intros e run -> He; by rewrite (Hrun _ _ _ He).
Qed.

End HandlerFacts.

Section ConversationFacts.
Import JsString Js Async RunCypherQuery QueryBuilding Vocabulary Terms.

Variable llm : list (list ChatMessage) -> Outcome ChatMessage.
Variable neo4j : list Run -> Outcome QueryResult.

Lemma only_transport_sendMessages (messages : list ChatMessage) :
throwsOnlyTransport llm (sendMessages llm messages).
Proof. intros w e w'. rewrite sendMessages_eq. by intros [= H <-]. Qed.

Lemma only_transport_tryCatch (body : M ChatMessage) (onError : Thrown -> list ChatMessage) :
throwsOnlyTransport llm (tryCatch body (fun error => sendMessages llm (onError error))).
Proof.
intros w e w'. unfold tryCatch. destruct (body w) as [[reply|e1] w1]; [done|].
apply only_transport_sendMessages.
Qed.

Lemma only_transport_bind {A B : Type} (m : M A) (f : A -> M B) :
throwsOnlyTransport llm m -> (forall a, throwsOnlyTransport llm (f a)) ->
throwsOnlyTransport llm (bind m f).
Proof.
intros Hm Hf w e w'. unfold bind. destruct (m w) as [[a|e1] w1] eqn:Hmw.
- apply Hf.
- intros [= <- <-]. by apply (Hm _ _ _ Hmw).
Qed.

Lemma only_transport_handlers (argument : string) :
throwsOnlyTransport llm (handleEntitySearch llm neo4j argument)
/\ throwsOnlyTransport llm (handlePropertiesSearch llm neo4j argument)
/\ throwsOnlyTransport llm (handleRelatedEntitiesSearch llm neo4j argument).
Proof.
split; [apply only_transport_tryCatch|]. split; [apply only_transport_tryCatch|].
unfold handleRelatedEntitiesSearch.
destruct (trim <$> split argument ",") as [|a [|b [|c l]]];
  try apply only_transport_sendMessages.
apply only_transport_tryCatch.
Qed.

Lemma only_transport_loop (budget : nat) :
forall (n : nat) (llmResponse : ChatMessage),
  throwsOnlyTransport llm (queryBuildingLoop llm neo4j budget n llmResponse).
Proof.
induction budget as [|budget IH]; intros n llmResponse; [done|].
simpl. intros w e w'.
destruct (classify_total (content llmResponse)) as [action Ha].
unfold bind at 1. unfold lift. rewrite Ha.
destruct (only_transport_handlers
            match action with
            | EntitySearch a | PropertiesSearch a | RelatedEntitiesSearch a => a
            | _ => EmptyString
            end) as (HE & HP & HR).
destruct action; [done| | | |]; apply only_transport_bind; try done;
  try (intros r; apply IH).
apply only_transport_sendMessages.
Qed.

(** X7. The only throw that leaves the workflow, or any of the three
    search handlers, is a throw of the chat transport: when one of them
    ends with a thrown value, that value is what the last call of
    [sendMessages] threw. A failure of the store never leaves them. *)
Theorem only_transport_failures_propagate (text : string) (w w' : World) (e : Thrown) :
queryBuildingWorkflow llm neo4j text w = (Threw e, w')
\/ handleEntitySearch llm neo4j text w = (Threw e, w')
\/ handlePropertiesSearch llm neo4j text w = (Threw e, w')
\/ handleRelatedEntitiesSearch llm neo4j text w = (Threw e, w') ->
llm (sent w') = Threw e.
Proof.
destruct (only_transport_handlers text) as (HE & HP & HR).
intros [H|[H|[H|H]]]; [|by eapply HE|by eapply HP|by eapply HR].
revert H. apply only_transport_bind; [apply only_transport_sendMessages|].
intros first. apply only_transport_bind; [apply only_transport_loop|].
intros looped. apply only_transport_sendMessages.
Qed.

Lemma speaks_send (text stageName : string) :
speaksSystem (sendMessages llm [systemMessage text stageName]).
Proof.
intros w. exists [[systemMessage text stageName]]. split; [done|].
constructor; [|done]. by eexists.
Qed.

Lemma speaks_quiet {A : Type} (m : M A) :
(forall w, sent (m w).2 = sent w) -> speaksSystem m.
Proof. intros Hm w. exists []. by rewrite app_nil_r. Qed.

Lemma speaks_bind {A B : Type} (m : M A) (f : A -> M B) :
speaksSystem m -> (forall a, speaksSystem (f a)) -> speaksSystem (bind m f).
Proof.
intros Hm Hf w. unfold bind. destruct (Hm w) as (calls & Hs & Hc).
destruct (m w) as [[a|e] w1]; simpl in *; [|eauto].
destruct (Hf a w1) as (calls' & Hs' & Hc'). exists (calls ++ calls').
rewrite Hs', Hs, app_assoc. split; [done|]. by apply Forall_app.
Qed.

Lemma speaks_tryCatch {A : Type} (body : M A) (handler : Thrown -> M A) :
speaksSystem body -> (forall e, speaksSystem (handler e)) ->
speaksSystem (tryCatch body handler).
Proof.
intros Hb Hh w. unfold tryCatch. destruct (Hb w) as (calls & Hs & Hc).
destruct (body w) as [[a|e] w1]; simpl in *; [eauto|].
destruct (Hh e w1) as (calls' & Hs' & Hc'). exists (calls ++ calls').
rewrite Hs', Hs, app_assoc. split; [done|]. by apply Forall_app.
Qed.

Lemma speaks_runCypherQuery (query : string) (params : JsValue) :
speaksSystem (runCypherQuery neo4j query params).
Proof.
apply speaks_quiet. intros w.
destruct (runCypherQuery_cases neo4j query params w) as (o & w1 & -> & [->| ->]); done.
Qed.

Lemma speaks_lift {A : Type} (o : Outcome A) : speaksSystem (lift o).
Proof. by apply speaks_quiet. Qed.

Lemma speaks_handlers (argument : string) :
speaksSystem (handleEntitySearch llm neo4j argument)
/\ speaksSystem (handlePropertiesSearch llm neo4j argument)
/\ speaksSystem (handleRelatedEntitiesSearch llm neo4j argument).
Proof.
split; [|split].
- apply speaks_tryCatch; [|intros e; apply speaks_send].
  apply speaks_bind; [apply speaks_runCypherQuery|]. intros result.
  destruct (Nat.eqb _ _); [apply speaks_send|].
  apply speaks_bind; [apply speaks_lift|]. intros pieces. apply speaks_send.
- apply speaks_tryCatch; [|intros e; apply speaks_send].
  apply speaks_bind; [apply speaks_runCypherQuery|]. intros result.
  destruct (records result); [apply speaks_send|].
  apply speaks_bind; [apply speaks_lift|]. intros properties.
  apply speaks_bind; [apply speaks_lift|]. intros text. apply speaks_send.
- unfold handleRelatedEntitiesSearch.
  destruct (trim <$> split argument ",") as [|a [|b [|c l]]]; try apply speaks_send.
  apply speaks_tryCatch; [|intros e; apply speaks_send].
  apply speaks_bind; [apply speaks_runCypherQuery|]. intros result.
  destruct (Nat.eqb _ _); [apply speaks_send|].
  apply speaks_bind; [apply speaks_lift|]. intros pieces. apply speaks_send.
Qed.

Lemma speaks_loop (budget : nat) :
forall (n : nat) (llmResponse : ChatMessage),
  speaksSystem (queryBuildingLoop llm neo4j budget n llmResponse).
Proof.
induction budget as [|budget IH]; intros n llmResponse; [by apply speaks_quiet|].
simpl. apply speaks_bind; [apply speaks_lift|]. intros action.
destruct (speaks_handlers
            match action with
            | EntitySearch a | PropertiesSearch a | RelatedEntitiesSearch a => a
            | _ => EmptyString
            end) as (HE & HP & HR).
destruct action; [by apply speaks_quiet| | | |]; apply speaks_bind; try done;
  try (intros r; apply IH).
apply speaks_send.
Qed.

(** X8. Whatever the transport and the server do, the calls that the
    workflow makes to the transport begin with the initial instructions
    and are all single messages of the [system] role; when the workflow
    returns, the last of them is the final query-construction message for
    the question asked and the value returned is the answer to it. *)
Theorem workflow_conversation (text : string) (w : World) :
exists calls,
  sent (queryBuildingWorkflow llm neo4j text w).2
    = sent w ++ [initialMessage] :: calls
  /\ Forall systemTurn calls
  /\ (forall reply,
        (queryBuildingWorkflow llm neo4j text w).1 = Returned reply ->
        last (sent (queryBuildingWorkflow llm neo4j text w).2) = Some [finalMessage text]
        /\ llm (sent (queryBuildingWorkflow llm neo4j text w).2) = Returned reply).
Proof.
destruct (queryBuildingWorkflow llm neo4j text w) as [o w'] eqn:Hrun.
cbn [fst snd]. revert Hrun.
unfold queryBuildingWorkflow. unfold bind at 1. rewrite sendMessages_eq.
destruct (llm (sent w ++ [[initialMessage]])) as [first|e].
2:{ intros [= <- <-]. exists []. split; [done|]. split; [constructor|done]. }
unfold bind.
destruct (speaks_loop QUERY_BUILDING_MAX_LOOPS 0 first (afterSend w [initialMessage]))
  as (calls & Hs & Hc).
destruct (queryBuildingLoop _ _ _ _ _ _) as [[looped|e] w2]; cbn [fst snd] in Hs.
- rewrite sendMessages_eq. intros [= <- <-].
  exists (calls ++ [[finalMessage text]]). cbn [sent afterSend] in *.
  rewrite Hs, <- !app_assoc. split; [done|]. split.
  + apply Forall_app. split; [done|]. constructor; [|done]. by eexists.
  + intros reply Hr. split; [|done]. by rewrite !app_assoc, last_snoc.
- intros [= <- <-]. exists calls. cbn [sent afterSend] in Hs.
  rewrite Hs, <- app_assoc. by split.
Qed.

Lemma loop_stops (budget n : nat) (llmResponse : ChatMessage) (w : World) :
toUpperCase (trim (content llmResponse)) = "STOP" ->
queryBuildingLoop llm neo4j (S budget) n llmResponse w
  = (Returned (S n, llmResponse), w).
Proof.
intros Hstop. cbn [queryBuildingLoop]. unfold bind, lift, classify.
by rewrite Hstop.
Qed.

(** X9. When the reply to the initial instructions is [STOP], in any
    letter case and with any white space around it, the workflow sends
    the final message at once: two calls of the transport in all, no query
    to the store, and the answer to the final message as its outcome. *)
Theorem stop_ends_the_search (text : string) (w : World) (first : ChatMessage) :
llm (sent w ++ [[initialMessage]]) = Returned first ->
toUpperCase (trim (content first)) = "STOP" ->
queryBuildingWorkflow llm neo4j text w
  = (llm (sent w ++ [[initialMessage]] ++ [[finalMessage text]]),
     afterSend (afterSend w [initialMessage]) [finalMessage text])
/\ issued (queryBuildingWorkflow llm neo4j text w).2 = issued w.
Proof.
intros Hfirst Hstop.
assert (Hrun : queryBuildingWorkflow llm neo4j text w
               = (llm (sent w ++ [[initialMessage]] ++ [[finalMessage text]]),
                  afterSend (afterSend w [initialMessage]) [finalMessage text])).
{ unfold queryBuildingWorkflow, QUERY_BUILDING_MAX_LOOPS.
  unfold bind at 1. rewrite sendMessages_eq, Hfirst.
  unfold bind. rewrite loop_stops by done. rewrite sendMessages_eq.
  cbn [sent afterSend]. by rewrite <- app_assoc. }
by rewrite Hrun.
Qed.

End ConversationFacts.

(** A transport that fails on its third call: the workflow ends with its
    error. *)
Lemma only_transport_failures_propagate_witness :
  let llm := Terms.failingAfter ["Entity Search: Alice"; "Tail Search: e1, KNOWS"] in
  let run := QueryBuilding.queryBuildingWorkflow llm Scenario.failingServer
               "Who knows Alice?" Scenario.connectedWorld in
  llm (Async.sent run.2) = Js.Threw (Js.ThrownError "Network Error").
Proof.
  intros llm run.
  apply (only_transport_failures_propagate llm Scenario.failingServer
           "Who knows Alice?" Scenario.connectedWorld run.2).
  left. vm_compute. reflexivity.
Defined.

Lemma stop_ends_the_search_witness :
  let llm := Scenario.scripted ["  stop "] "Entity Search: Alice" in
  let w := Scenario.connectedWorld in
  QueryBuilding.queryBuildingWorkflow llm Scenario.emptyServer "Who knows Alice?" w
    = (llm (Async.sent w ++ [[QueryBuilding.initialMessage]]
            ++ [[QueryBuilding.finalMessage "Who knows Alice?"]]),
       Vocabulary.afterSend (Vocabulary.afterSend w [QueryBuilding.initialMessage])
         [QueryBuilding.finalMessage "Who knows Alice?"])
  /\ Async.issued
       (QueryBuilding.queryBuildingWorkflow llm Scenario.emptyServer "Who knows Alice?" w).2
     = Async.issued w.
Proof.
  intros llm w.
  apply (stop_ends_the_search llm Scenario.emptyServer "Who knows Alice?" w
           (Scenario.assistantReply "  stop ")).
  - reflexivity.
  - vm_compute. reflexivity.
Defined.

(** ** The extractor and the graph drawn from it *)

Section PatternFacts.
Import JsString Regex ParseCypherQuery Graphin Vocabulary Terms.

Lemma distinct_registerNode (node : Neo4jNode) (st : ParseState) :
hasNode st (node_variable node) = false ->
nodesDistinct st -> nodesDistinct (registerNode node st).
Proof.
intros Hfresh [Hnd Hin]. split.
- simpl. rewrite fmap_app. apply NoDup_app. split; [done|]. split.
  + intros v Hv Hv'. apply list_elem_of_singleton in Hv'. subst v.
    apply Hin in Hv. congruence.
  + apply NoDup_singleton.
- intros v. cbn [st_nodes registerNode]. rewrite fmap_app, elem_of_app.
  intros [Hv|Hv]; apply hasNode_registerNode; [right; by apply Hin|left].
  simpl in Hv. by apply list_elem_of_singleton in Hv.
Qed.

Lemma distinct_nodeStep (st : ParseState) (m : captures) :
nodesDistinct st -> nodesDistinct (nodeStep st m).
Proof.
intros Hst. unfold nodeStep. destruct (hasNode st (group m 1)) eqn:Hv; [done|].
by apply distinct_registerNode.
Qed.

Lemma distinct_ensureNode (v : string) (st : ParseState) :
nodesDistinct st -> nodesDistinct (ensureNode v st).
Proof.
intros Hst. unfold ensureNode. destruct (hasNode st v) eqn:Hv; [done|].
by apply distinct_registerNode.
Qed.

Lemma distinct_relStep (st : ParseState) (m : captures) :
nodesDistinct st -> nodesDistinct (relStep st m).
Proof. intros Hst. unfold relStep. by do 2 apply distinct_ensureNode. Qed.

Lemma distinct_foldl {A : Type} (step : ParseState -> A -> ParseState) (xs : list A) :
(forall st x, nodesDistinct st -> nodesDistinct (step st x)) ->
forall st, nodesDistinct st -> nodesDistinct (foldl step st xs).
Proof.
intros Hstep. induction xs as [|x xs IH]; intros st Hst; [done|].
simpl. by apply IH, Hstep.
Qed.

Lemma distinct_parse (query : string) :
nodesDistinct (scanRelationships (normalizeQuery query) (scanNodes (normalizeQuery query))).
Proof.
apply distinct_foldl; [apply distinct_relStep|].
apply distinct_foldl; [apply distinct_nodeStep|].
split; [constructor|]. intros v Hv. simpl in Hv. by apply elem_of_nil in Hv.
Qed.


Lemma orUndefined_not_empty (properties : Properties) :
orUndefined properties <> Some ∅.
Proof. unfold orUndefined. destruct (decide (properties = ∅)); congruence. Qed.

Lemma isEmpty_false (s : string) : isEmpty s = false -> s <> EmptyString.
Proof. by destruct s. Qed.

Lemma tidy_nodeStep (st : ParseState) (m : captures) :
Forall tidyNode (st_nodes st) -> Forall tidyNode (st_nodes (nodeStep st m)).
Proof.
intros Hst. unfold nodeStep. destruct (hasNode st (group m 1)); [done|].
simpl. apply Forall_app. split; [done|]. constructor; [|done].
split; [|apply orUndefined_not_empty]. simpl.
destruct (isEmpty (group m 2)); [done|].
apply Forall_forall. intros label Hl. apply list_elem_of_filter in Hl as [Hl _].
apply isEmpty_false. by destruct (isEmpty label).
Qed.

Lemma tidy_ensureNode (v : string) (st : ParseState) :
Forall tidyNode (st_nodes st) -> Forall tidyNode (st_nodes (ensureNode v st)).
Proof.
intros Hst. unfold ensureNode. destruct (hasNode st v); [done|].
simpl. apply Forall_app. split; [done|]. constructor; [|done]. by split.
Qed.

Lemma relationships_ensureNode (v : string) (st : ParseState) :
st_relationships (ensureNode v st) = st_relationships st.
Proof. unfold ensureNode. by destruct (hasNode st v). Qed.

Lemma tidy_relStep (st : ParseState) (m : captures) :
Forall tidyNode (st_nodes st) /\ Forall tidyRelationship (st_relationships st) ->
Forall tidyNode (st_nodes (relStep st m))
/\ Forall tidyRelationship (st_relationships (relStep st m)).
Proof.
intros [Hn Hr]. unfold relStep. split.
- by do 2 apply tidy_ensureNode.
- rewrite !relationships_ensureNode. simpl. apply Forall_app. split; [done|].
  constructor; [|done]. split; [|split]; simpl.
  + destruct (isEmpty (group m 3)) eqn:He; [done|by apply isEmpty_false].
  + destruct (isEmpty (group m 2)) eqn:He; [done|].
    intros [= H]. by rewrite H in He.
  + apply orUndefined_not_empty.
Qed.

Lemma tidy_parse (query : string) :
Forall tidyNode (nodes (parseCypherQuery query))
/\ Forall tidyRelationship (relationships (parseCypherQuery query)).
Proof.
unfold parseCypherQuery, scanRelationships, scanNodes. simpl.
generalize (execAll relPattern (normalizeQuery query)).
generalize (execAll nodePattern (normalizeQuery query)). intros ns rs.
assert (Hn : Forall tidyNode (st_nodes (foldl nodeStep initialState ns))
             /\ st_relationships (foldl nodeStep initialState ns) = []).
{ assert (H0 : Forall tidyNode (st_nodes initialState)
               /\ st_relationships initialState = []) by (split; [constructor|done]).
  revert H0. generalize initialState.
  induction ns as [|n ns IH]; intros st [H1 H2]; [done|]. simpl. apply IH.
  split; [by apply tidy_nodeStep|by rewrite relationships_nodeStep]. }
destruct Hn as [Hn Hr].
assert (H0 : Forall tidyNode (st_nodes (foldl nodeStep initialState ns))
             /\ Forall tidyRelationship (st_relationships (foldl nodeStep initialState ns)))
  by (split; [done|rewrite Hr; constructor]).
revert H0. generalize (foldl nodeStep initialState ns).
induction rs as [|r rs IH]; intros st Hst; [done|]. simpl. by apply IH, tidy_relStep.
Qed.

(** X11. What the extractor returns is tidy, whatever the text: no node
    has an empty label, no relationship has an empty type, the default
    being [RELATED_TO], or an empty variable, and the properties of a node
    or of a relationship are absent rather than empty. *)
Theorem pattern_is_tidy (query : string) :
(forall node, node ∈ nodes (parseCypherQuery query) ->
   Forall (fun label => label <> EmptyString) (node_labels node)
   /\ node_properties node <> Some ∅)
/\ (forall r, r ∈ relationships (parseCypherQuery query) ->
      rel_type r <> EmptyString
      /\ rel_variable r <> Some EmptyString
      /\ rel_properties r <> Some ∅).
Proof.
destruct (tidy_parse query) as [Hn Hr]. split.
- intros node Hin. by apply (proj1 (Forall_forall _ _) Hn).
- intros r Hin. by apply (proj1 (Forall_forall _ _) Hr).
Qed.

Lemma ends_parse (query : string) (r : Neo4jRelationship) :
r ∈ relationships (parseCypherQuery query) ->
rel_source r ∈ node_variable <$> nodes (parseCypherQuery query)
/\ rel_target r ∈ node_variable <$> nodes (parseCypherQuery query).
Proof.
intros Hr.
destruct (scanNodes_invariant (normalizeQuery query)) as [Hc Hrel].
destruct (scanRelationships_invariant (normalizeQuery query)
            (scanNodes (normalizeQuery query)) Hc) as (Hcover & Hends & _).
{ intros r'. rewrite Hrel. by rewrite elem_of_nil. }
destruct (Hends r Hr) as [Hs Ht].
destruct (Hcover _ Hs) as (n1 & Hn1 & <-). destruct (Hcover _ Ht) as (n2 & Hn2 & <-).
split; by apply list_elem_of_fmap_2.
Qed.

(** X12. The graph that [QueryGraph] draws for any query text is well
    formed: it has one node per node and one edge per relationship of the
    extracted pattern, the identifiers of its nodes are pairwise distinct,
    and the source and the target of every edge are identifiers of its
    nodes. Without a query it is empty. *)
Theorem graph_is_well_formed (value : string) :
length (gnodes (graphData (Some value))) = length (nodes (parseCypherQuery value))
/\ length (gedges (graphData (Some value)))
   = length (relationships (parseCypherQuery value))
/\ NoDup (gnode_id <$> gnodes (graphData (Some value)))
/\ (forall edge, edge ∈ gedges (graphData (Some value)) ->
      gedge_source edge ∈ gnode_id <$> gnodes (graphData (Some value))
      /\ gedge_target edge ∈ gnode_id <$> gnodes (graphData (Some value)))
/\ graphData None = {| gnodes := []; gedges := [] |}.
Proof.
assert (Hids : gnode_id <$> gnodes (graphData (Some value))
               = node_variable <$> nodes (parseCypherQuery value)).
{ simpl. rewrite <- list_fmap_compose. done. }
rewrite Hids. simpl. rewrite !length_map.
split; [done|]. split; [done|]. split; [apply distinct_parse|]. split; [|done].
intros edge Hedge. apply list_elem_of_fmap in Hedge as (r & -> & Hr).
by apply ends_parse.
Qed.

Lemma land_255_range (z : Z) : (0 <= Z.land z 255 < 256)%Z.
Proof.
change 255%Z with (Z.ones 8). rewrite Z.land_ones by lia.
apply Z.mod_pos_bound. lia.
Qed.

Lemma bytes_have_two_digits :
forallb (fun n => twoHexDigits (substrFromEnd 2 ("00" +:+ toHex (Z.of_nat n))))
        (seq 0 256) = true.
Proof. by vm_compute. Qed.

Lemma colorByte_two_digits (hash : Z) (i : nat) : twoHexDigits (colorByte hash i) = true.
Proof.
unfold colorByte. generalize (land_255_range (Z.shiftr (toInt32 hash) (Z.of_nat (i * 8)))).
generalize (Z.land (Z.shiftr (toInt32 hash) (Z.of_nat (i * 8))) 255). intros v Hv.
pose proof (proj1 (forallb_forall _ _) bytes_have_two_digits (Z.to_nat v)) as H.
cbv beta in H. rewrite Z2Nat.id in H by lia. apply H. apply in_seq. lia.
Qed.

(** X13. The colour computed for any label is a colour: a number sign
    followed by exactly six hexadecimal digits in lower case. *)
Theorem color_is_well_formed (label : string) :
exists digits,
  getColorByLabel label = "#" +:+ digits
  /\ String.length digits = 6
  /\ allChars hexDigitChar digits = true.
Proof.
unfold getColorByLabel. simpl.
pose proof (colorByte_two_digits (hashFrom 0 label) 0) as H0.
pose proof (colorByte_two_digits (hashFrom 0 label) 1) as H1.
pose proof (colorByte_two_digits (hashFrom 0 label) 2) as H2.
destruct (colorByte (hashFrom 0 label) 0) as [|a0 [|b0 [|]]]; try done.
destruct (colorByte (hashFrom 0 label) 1) as [|a1 [|b1 [|]]]; try done.
destruct (colorByte (hashFrom 0 label) 2) as [|a2 [|b2 [|]]]; try done.
simpl in *.
apply andb_true_iff in H0 as [? ?]. apply andb_true_iff in H1 as [? ?].
apply andb_true_iff in H2 as [? ?].
exists (String a0 (String b0 (String a1 (String b1 (String a2 (String b2 EmptyString)))))).
split; [done|]. split; [done|]. simpl.
repeat (apply andb_true_iff; split); done.
Qed.

End PatternFacts.

(** ** Entity identifiers *)

Section EntityFacts.
Import JsString Regex Js RunCypherQuery EntityFormat Vocabulary Terms.

(** The greedy repetition of a class followed by the end of the input
    succeeds exactly when every code unit left is in the class. *)
Lemma star_to_end (p : ascii -> bool) (s : string) :
forall (i : nat) (caps : captures),
  star p i s caps
    (fun i' s' caps' => if isEmpty s' then Some (i', caps') else None)
  = if allChars p s then Some (i + String.length s, caps) else None.
Proof.
induction s as [|c s IH]; intros i caps; simpl.
- by rewrite Nat.add_0_r.
- destruct (p c); simpl; [|done]. rewrite IH.
  destruct (allChars p s); [|done]. do 2 f_equal. lia.
Qed.

Lemma entityId_at_start (s : string) :
matchAt entityIdPattern 0 s
  = if negb (isEmpty s) && allChars wordOrDash s
    then Some (String.length s, ∅) else None.
Proof.
unfold matchAt, entityIdPattern. simpl. destruct s as [|c s]; [done|]. simpl.
destruct (wordOrDash c); [|done]. simpl.
rewrite (star_to_end wordOrDash s 1 ∅). by destruct (allChars wordOrDash s).
Qed.

Lemma entityId_not_later (s : string) (i : nat) :
searchFrom entityIdPattern (S i) s = None.
Proof. revert i. induction s as [|c s IH]; intros i; simpl; [done|]. apply IH. Qed.

(** X14. [isNeo4jEntity] on a string holds exactly when the string is
    not empty and is made of letters, digits, underscores and hyphens; on
    an object it holds exactly when one of the properties [_labels], [_id],
    [_type] is present, whatever its value; it holds for nothing else. *)
Theorem isNeo4jEntity_characterized (value : JsValue) :
isNeo4jEntity value
  = match value with
    | JsStr s => negb (isEmpty s) && allChars wordOrDash s
    | JsObject props =>
        hasKey props "_labels" || hasKey props "_id" || hasKey props "_type"
    | _ => false
    end.
Proof.
destruct value as [| | | |s| |]; try done.
unfold isNeo4jEntity, search.
destruct s as [|c s]; [done|].
change (searchFrom entityIdPattern 0 (String c s))
  with (match matchAt entityIdPattern 0 (String c s) with
        | Some found => Some found
        | None => searchFrom entityIdPattern 1 s
        end).
rewrite entityId_at_start, entityId_not_later.
by destruct (negb (isEmpty (String c s)) && allChars wordOrDash (String c s)).
Qed.

Lemma truthy_hasKey (props : list (string * JsValue)) (key : string) :
truthy (lookupProp props key) = true -> hasKey props key = true.
Proof.
induction props as [|[k v] props IH]; simpl; [done|].
destruct (String.eqb k key); [done|]. apply IH.
Qed.

(** X15. The two tests for a graph entity agree one way only: every cell
    that the normalizer types as [uri] is an entity for [isNeo4jEntity],
    but an object whose marker is present with a falsy value, such as
    [_id] equal to zero, is an entity for [isNeo4jEntity] and an [object]
    for the normalizer. *)
Theorem uri_cells_are_entities :
(forall value : JsValue, cellType value = "uri" -> isNeo4jEntity value = true)
/\ isNeo4jEntity (JsObject [("_id", JsNumber 0)]) = true
/\ cellType (JsObject [("_id", JsNumber 0)]) = "object".
Proof.
split; [|by split].
intros value. destruct value as [| |b|n|s|elems|props]; try done.
unfold cellType, isNeo4jEntity. simpl.
destruct (truthy (lookupProp props "_labels")) eqn:H1;
  [by rewrite (truthy_hasKey _ _ H1)|].
destruct (truthy (lookupProp props "_id")) eqn:H2.
{ intros _. rewrite (truthy_hasKey _ _ H2). by rewrite orb_true_r. }
destruct (truthy (lookupProp props "_type")) eqn:H3; [|done].
intros _. rewrite (truthy_hasKey _ _ H3). by rewrite !orb_true_r.
Qed.









End EntityFacts.


Example href_of_entity_encoded :
EntityFormat.getHrefFromURI [233; 32; 8364; 55357; 56832]%N
= Js.Returned (EntityFormat.unitsOf "#/entity/%C3%A9%20%E2%82%AC%F0%9F%98%80").
Proof. reflexivity. Qed.

(** A lead surrogate without its trail makes the call throw. *)
Example href_of_lone_surrogate :
EntityFormat.getHrefFromURI [97; 55357]%N = Js.Threw EntityFormat.uriError.
Proof. reflexivity. Qed.

(** ** Comments in a query *)

Section CommentFacts.
Import JsString Regex ParseCypherQuery Vocabulary Terms.

Lemma star_longest (p : ascii -> bool) (s : string) :
forall (i : nat) (caps : captures),
  star p i s caps (fun i' _ caps' => Some (i', caps'))
  = Some (i + runLength p s, caps).
Proof.
induction s as [|c s IH]; intros i caps; simpl.
- by rewrite Nat.add_0_r.
- destruct (p c); [|by rewrite Nat.add_0_r].
  rewrite IH. do 2 f_equal. lia.
Qed.

Lemma matchAt_whitespaceRun (i : nat) (c : ascii) (s : string) :
matchAt whitespaceRun i (String c s)
  = if isWhiteSpace c then Some (S i + runLength isWhiteSpace s, ∅) else None.
Proof.
unfold matchAt, whitespaceRun. cbn [rmatch].
destruct (isWhiteSpace c); [|done]. apply star_longest.
Qed.

(** The first replacement of [normalizeQuery] collapses the runs of
    white space. *)
Lemma collapse_replaceAllFrom (s : string) :
forall i : nat,
  replaceAllFrom whitespaceRun " " i s 0 = collapseFrom false s
  /\ replaceAllFrom whitespaceRun " " i s (runLength isWhiteSpace s)
     = collapseFrom true s.
Proof.
induction s as [|c s IH]; intros i; [done|].
assert (replaceAllFrom whitespaceRun " " i (String c s) 0
        = collapseFrom false (String c s)) as Hzero.
{ cbn [replaceAllFrom collapseFrom]. rewrite matchAt_whitespaceRun.
  destruct (isWhiteSpace c).
  - replace (S i + runLength isWhiteSpace s - i - 1)
      with (runLength isWhiteSpace s) by lia.
    by rewrite (proj2 (IH (S i))).
  - by rewrite (proj1 (IH (S i))). }
split; [done|].
cbn [runLength]. destruct (isWhiteSpace c) eqn:Hc.
- cbn [replaceAllFrom collapseFrom]. rewrite Hc. apply IH.
- rewrite Hzero. cbn [collapseFrom]. by rewrite Hc.
Qed.

Lemma collapse_append (a : string) (c : ascii) (b : string) (inRun : bool) :
isWhiteSpace c = false ->
collapseFrom inRun (a +:+ String c b)
  = collapseFrom inRun a +:+ String c (collapseFrom false b).
Proof.
intros Hc. revert inRun. induction a as [|d a IH]; intros inRun.
- rewrite !append_nil_l. cbn [collapseFrom]. by rewrite Hc.
- rewrite append_cons. cbn [collapseFrom].
  destruct (isWhiteSpace d); [destruct inRun|];
    rewrite ?append_cons; by rewrite IH.
Qed.

Lemma terminators_are_white (c : ascii) :
isWhiteSpace c = false -> dot c = true.
Proof.
unfold isWhiteSpace, dot, isLineTerminator.
generalize (nat_of_ascii c). intros n.
do 14 (destruct n as [|n]; [done|]). done.
Qed.

Lemma collapse_no_terminator (s : string) (inRun : bool) :
allChars dot (collapseFrom inRun s) = true.
Proof.
revert inRun. induction s as [|c s IH]; intros inRun; [done|].
cbn [collapseFrom]. destruct (isWhiteSpace c) eqn:Hc.
- destruct inRun; [apply IH|]. cbn [allChars]. by rewrite IH.
- cbn [allChars]. by rewrite (terminators_are_white c Hc), IH.
Qed.

Lemma runLength_all (p : ascii -> bool) (s : string) :
allChars p s = true -> runLength p s = String.length s.
Proof.
induction s as [|c s IH]; [done|]. simpl.
intros [-> Hs]%andb_true_iff. by rewrite IH.
Qed.

Lemma startsWith_two (c1 c2 : ascii) (s : string) :
startsWith (String c1 (String c2 s)) "//" = Ascii.eqb "/" c1 && Ascii.eqb "/" c2.
Proof.
unfold startsWith. cbn [String.prefix].
destruct (ascii_dec "/" c1) as [<-|H1].
- destruct (ascii_dec "/" c2) as [<-|H2]; [by destruct s|].
  by destruct (Ascii.eqb_spec "/" c2).
- by destruct (Ascii.eqb_spec "/" c1).
Qed.

Lemma startsWith_one (c : ascii) : startsWith (String c EmptyString) "//" = false.
Proof. unfold startsWith. cbn [String.prefix]. by destruct (ascii_dec "/" c). Qed.

Lemma startsWith_slashes (s : string) :
startsWith s "//" = true -> exists s', s = String "/" (String "/" s').
Proof.
destruct s as [|c1 [|c2 s]]; [done|by rewrite startsWith_one|].
rewrite startsWith_two. intros [H1 H2]%andb_true_iff.
apply Ascii.eqb_eq in H1 as <-. apply Ascii.eqb_eq in H2 as <-. eauto.
Qed.

Lemma matchAt_lineComment (i : nat) (s : string) :
matchAt lineComment i s
  = if startsWith s "//" then Some (i + 2 + runLength dot (drop 2 s), ∅) else None.
Proof.
destruct s as [|c1 [|c2 s]]; [done| |].
- rewrite startsWith_one. unfold matchAt, lineComment, seqs. cbn [foldr rmatch].
  by destruct (Ascii.eqb "/" c1).
- rewrite startsWith_two. unfold matchAt, lineComment, seqs. cbn [foldr rmatch].
  destruct (Ascii.eqb "/" c1); [|done]. destruct (Ascii.eqb "/" c2); [|done].
  cbn [andb drop]. rewrite star_longest. do 2 f_equal. lia.
Qed.

Lemma replaceAllFrom_skipped (r : regex) (repl : string) (s : string) :
forall i skip : nat,
  String.length s <= skip -> replaceAllFrom r repl i s skip = EmptyString.
Proof.
induction s as [|c s IH]; intros i skip Hskip; [done|].
simpl in Hskip. destruct skip as [|skip]; [lia|].
cbn [replaceAllFrom]. apply IH. lia.
Qed.

(** On a text without line terminators the second replacement of
    [normalizeQuery] removes everything from the first two slashes on. *)
Lemma comment_replaceAllFrom (s : string) :
forall i : nat,
  allChars dot s = true ->
  replaceAllFrom lineComment EmptyString i s 0 = beforeComment s.
Proof.
induction s as [|c s IH]; intros i Hdot; [done|].
cbn [replaceAllFrom beforeComment]. rewrite matchAt_lineComment.
destruct (startsWith (String c s) "//") eqn:Hstart.
- destruct (startsWith_slashes _ Hstart) as [s' [= -> ->]].
  rewrite append_nil_l. apply replaceAllFrom_skipped.
  cbn [drop]. rewrite runLength_all; [simpl; lia|]. by simpl in Hdot.
- rewrite IH; [done|]. simpl in Hdot. by apply andb_true_iff in Hdot as [_ Hdot].
Qed.

Lemma normalizeQuery_eq (query : string) :
normalizeQuery query = trim (beforeComment (collapseFrom false query)).
Proof.
unfold normalizeQuery, replaceAll.
rewrite (proj1 (collapse_replaceAllFrom query 0)).
by rewrite comment_replaceAllFrom; [|apply collapse_no_terminator].
Qed.

Lemma lastChar_cons (c : ascii) (s : string) :
lastChar (String c s) = Some "/"%char ->
lastChar s = Some "/"%char \/ (s = EmptyString /\ c = "/"%char).
Proof.
simpl. destruct s as [|d s]; simpl.
- intros [= ->]. by right.
- destruct (lastChar s); intros [= ->]; by left.
Qed.

Lemma lastChar_keep (c : ascii) (s : string) :
lastChar s = Some "/"%char -> lastChar (String c s) = Some "/"%char.
Proof. simpl. by intros ->. Qed.

Lemma beforeComment_append (a b : string) :
lastChar a <> Some "/"%char ->
beforeComment (a +:+ String "/" (String "/" b)) = beforeComment a.
Proof.
induction a as [|c a IH]; intros Hlast.
- rewrite append_nil_l. cbn [beforeComment]. by rewrite startsWith_two.
- rewrite append_cons. cbn [beforeComment].
  assert (startsWith (String c (a +:+ String "/" (String "/" b))) "//"
          = startsWith (String c a) "//") as ->.
  { destruct a as [|d a].
    - rewrite append_nil_l, startsWith_two, startsWith_one.
      destruct (Ascii.eqb_spec "/" c) as [<-|]; [by destruct Hlast|done].
    - by rewrite append_cons, !startsWith_two. }
  rewrite IH; [done|]. intros Ha. by apply Hlast, lastChar_keep.
Qed.

Lemma lastChar_collapse (a : string) :
forall inRun : bool,
  lastChar (collapseFrom inRun a) = Some "/"%char -> lastChar a = Some "/"%char.
Proof.
induction a as [|c a IH]; intros inRun; [done|].
cbn [collapseFrom]. destruct (isWhiteSpace c) eqn:Hc.
- destruct inRun.
  + intros H. by apply lastChar_keep, (IH true).
  + intros [H|[_ [=]]]%lastChar_cons. by apply lastChar_keep, (IH true).
- intros [H|[Hnil ->]]%lastChar_cons.
  + by apply lastChar_keep, (IH false).
  + destruct a as [|d a]; [done|]. simpl in Hnil. by destruct (isWhiteSpace d).
Qed.

(** X17. White space, line breaks included, is collapsed before the
    comments are removed, so a comment runs to the end of the query and
    not to the end of its line: whatever follows two slashes is dropped
    from the normalized query, and the pattern read from the query is the
    pattern of the part before them. The part before the slashes must
    not end with a slash of its own. *)
Theorem comment_swallows_rest (before rest : string) :
lastChar before <> Some "/"%char ->
normalizeQuery (before +:+ "//" +:+ rest) = normalizeQuery before
/\ parseCypherQuery (before +:+ "//" +:+ rest) = parseCypherQuery before.
Proof.
intros Hlast.
assert (normalizeQuery (before +:+ "//" +:+ rest) = normalizeQuery before) as Hn.
{ rewrite !normalizeQuery_eq. f_equal.
  change ("//" +:+ rest) with (String "/" (String "/" rest)).
  rewrite collapse_append by done.
  change (collapseFrom false (String "/" rest))
    with (String "/" (collapseFrom false rest)).
  apply beforeComment_append. intros H. by apply Hlast, (lastChar_collapse _ false). }
split; [done|]. unfold parseCypherQuery. by rewrite Hn.
Qed.

End CommentFacts.

(** A comment on the first line hides the pattern of the second one. *)
Lemma comment_swallows_rest_witness :
Terms.lastChar "MATCH (a:Person) " <> Some "/"%char
/\ ParseCypherQuery.normalizeQuery
     ("MATCH (a:Person) " +:+ "//" +:+ (" people" +:+ JsString.nl +:+ "MATCH (b:Movie) RETURN a, b"))
   = ParseCypherQuery.normalizeQuery "MATCH (a:Person) "
/\ ParseCypherQuery.parseCypherQuery
     ("MATCH (a:Person) " +:+ "//" +:+ (" people" +:+ JsString.nl +:+ "MATCH (b:Movie) RETURN a, b"))
   = ParseCypherQuery.parseCypherQuery "MATCH (a:Person) ".
Proof.
split; [by vm_compute|].
apply (comment_swallows_rest "MATCH (a:Person) "). by vm_compute.
Defined.

(** ** Bindings under any column names *)

Section BindingFacts.
Import JsString Js Async RunCypherQuery Vocabulary Terms.






Lemma mapOutcome_pointwise {A B : Type} (f : A -> Outcome B) (g : A -> B) (xs : list A) :
Forall (fun x => f x = Returned (g x)) xs -> mapOutcome f xs = Returned (g <$> xs).
Proof.
induction 1 as [|x xs Hx _ IH]; [done|]. simpl. by rewrite Hx, IH.
Qed.

(** With distinct keys, none of them [__proto__], [record.get] of the
    keys in their order gives the fields in their order. *)
Lemma record_row (record : Neo4jRecord) :
NoDup (rec_keys record) ->
"__proto__" ∉ rec_keys record ->
length (rec_fields record) = length (rec_keys record) ->
mapOutcome (recordGet record) (rec_keys record) = Returned (rec_fields record).
Proof.
intros Hnd Hproto Hlen.
destruct (mapOutcome_returns (recordGet record) (rec_keys record)) as [row Hrow].
{ apply Forall_forall. intros key Hkey. by apply recordGet_returns. }
rewrite Hrow. f_equal.
destruct (mapOutcome_lookup _ _ _ Hrow) as [Hlength Hlook].
apply list_eq. intros j.
destruct (rec_keys record !! j) as [column|] eqn:Hj.
- destruct (Hlook j column Hj) as (v & Hv & Hg). rewrite Hv. symmetry.
  apply (recordGet_field record column j v); try done.
  intros ->. apply Hproto. by eapply list_elem_of_lookup_2.
- apply lookup_ge_None in Hj.
  rewrite !(proj2 (lookup_ge_None _ _)); [done|lia|lia].
Qed.

Lemma bindings_zip (keys : list string) (fields : list JsValue) :
length fields = length keys ->
imap (fun i column => (column, cellBinding (default JsUndefined (fields !! i)))) keys
  = zip keys (cellBinding <$> fields).
Proof.
revert fields. induction keys as [|key keys IH]; intros [|field fields] Hlen;
  try done.
cbn. f_equal. rewrite <- IH by (simpl in Hlen; lia). by apply imap_ext.
Qed.

(** X19. A query's answer as the application stores it: for a result of
    the driver whose keys are distinct and are not [__proto__],
    [formatCypherResult] followed by [convertToSparqlResultsFormat]
    returns the keys of the first record as the variables and, for each
    record in order, the bindings of its fields under its keys in
    order. *)
Theorem result_pipeline (result : CypherResult) :
wellShaped (records result) ->
NoDup (firstKeys (records result)) ->
"__proto__" ∉ firstKeys (records result) ->
exists formattedResult,
  formatCypherResult result = Returned formattedResult
  /\ convertToSparqlResultsFormat formattedResult
     = {| head_vars := firstKeys (records result);
          results_bindings :=
            (fun record => zip (rec_keys record) (cellBinding <$> rec_fields record))
              <$> records result |}.
Proof.
intros Hshape Hnd Hproto. unfold formatCypherResult, firstKeys in *.
destruct (records result) as [|first rest] eqn:Hrecords.
{ eexists. split; [reflexivity|done]. }
specialize (Hshape first eq_refl).
rewrite (mapOutcome_pointwise _ rec_fields).
2:{ eapply Forall_impl; [exact Hshape|]. intros record [Hkeys Hlen]. cbv beta.
    rewrite <- Hkeys. apply record_row; [by rewrite Hkeys|by rewrite Hkeys|done]. }
eexists. split; [reflexivity|].
unfold convertToSparqlResultsFormat. cbn [columns rows]. f_equal.
rewrite <- list_fmap_compose. apply Forall_fmap_ext_1.
eapply Forall_impl; [exact Hshape|]. intros record [Hkeys Hlen]. cbn.
rewrite bindRow_distinct by done. rewrite Hkeys. apply bindings_zip. by rewrite <- Hkeys.
Qed.

End BindingFacts.

(** Two records of a projection [name, age]. *)
Lemma result_pipeline_witness :
let result := Scenario.cypherResult
  [ {| Async.rec_keys := ["name"; "age"];
       Async.rec_fields := [Js.JsStr "Alice"; Js.JsNumber 30] |};
    {| Async.rec_keys := ["name"; "age"];
       Async.rec_fields := [Js.JsStr "Bob"; Js.JsNull] |} ] in
exists formattedResult,
  RunCypherQuery.formatCypherResult result = Js.Returned formattedResult
  /\ RunCypherQuery.convertToSparqlResultsFormat formattedResult
     = {| RunCypherQuery.head_vars := Vocabulary.firstKeys (RunCypherQuery.records result);
          RunCypherQuery.results_bindings :=
            (fun record => zip (Async.rec_keys record)
                               (Vocabulary.cellBinding <$> Async.rec_fields record))
              <$> RunCypherQuery.records result |}.
Proof.
intros result. apply (result_pipeline result).
- intros first [= <-]. repeat constructor.
- apply (bool_decide_unpack _). by vm_compute.
- apply (bool_decide_unpack _). by vm_compute.
Defined.

(** ** The history of queries *)

Section HistoryFacts.
Import RunCypherQuery QueryHistory Terms.




End HistoryFacts.
